(** * Literary Soundtrack Generator: profile parsing and track matching

    A shallow embedding of the two data-transformation stages of the
    repository, as they are written in [BookTrack.py] (the Streamlit
    application) and in [book_soundtrack.py] (the notebook export):

    - [parse_gemini_analysis]: free text of the generative model to a
      profile (category name to list of terms);
    - [search_spotify_tracks]: profile to weighted search queries, their
      execution, aggregation, ranking and truncation;
    - [create_spotify_playlist] (notebook export only).

    The two files share the Python string primitives, the raw shape of a
    search response and the ranking step; what differs lives in the modules
    [BookTrack] and [BookSoundtrack]. *)

From Stdlib Require Import ZArith NArith List String Ascii Sorting.Permutation Sorting.Sorted.
From stdpp Require Import base decidable option list gmap.
Import ListNotations.

Local Open Scope N_scope.

(** ** Python strings

    A Python [str] is a sequence of Unicode code points. *)

Definition char := N.
Definition str := list char.

(** An ASCII literal of the source, as code points. *)
Definition lit (s : String.string) : str :=
  map Ascii.N_of_ascii (String.list_ascii_of_string s).
Arguments lit s%_string.

Definition NEWLINE : char := 10.
Definition SPACE : char := 32.
Definition QUOTE : char := 34.
Definition COMMA : char := 44.
Definition COLON : char := 58.
Definition LBRACKET : char := 91.
Definition RBRACKET : char := 93.
(** U+1F4DA, the books emoji of the playlist name. *)
Definition BOOKS : char := 128218.

(** [str.isspace] on one code point: the characters [str.strip()] removes. *)
Definition isspace (c : char) : bool :=
  ((9 <=? c) && (c <=? 13)) || ((28 <=? c) && (c <=? 32))
  || (c =? 133) || (c =? 160) || (c =? 5760)
  || ((8192 <=? c) && (c <=? 8202))
  || (c =? 8232) || (c =? 8233) || (c =? 8239) || (c =? 8287) || (c =? 12288).

Fixpoint lstrip (s : str) : str :=
  match s with
  | [] => []
  | c :: s' => if isspace c then lstrip s' else s
  end.

Fixpoint rstrip (s : str) : str :=
  match s with
  | [] => []
  | c :: s' =>
      match rstrip s' with
      | [] => if isspace c then [] else [c]
      | r => c :: r
      end
  end.

(** [s.strip()] *)
Definition strip (s : str) : str := rstrip (lstrip s).

(** [sep in s], for a one-character [sep] *)
Definition contains (sep : char) (s : str) : bool := existsb (N.eqb sep) s.

(** [s.split(sep)] for a one-character separator: never the empty list. *)
Fixpoint split (sep : char) (s : str) : list str :=
  match s with
  | [] => [[]]
  | c :: s' =>
      if c =? sep then [] :: split sep s'
      else match split sep s' with
           | h :: t => (c :: h) :: t
           | [] => [[c]]
           end
  end.

(** [s.split(sep, 1)]: at most one cut, at the first separator. *)
Fixpoint split1 (sep : char) (s : str) : list str :=
  match s with
  | [] => [[]]
  | c :: s' =>
      if c =? sep then [[]; s']
      else match split1 sep s' with
           | h :: t => (c :: h) :: t
           | [] => [[c]]
           end
  end.

(** [s.startswith(c)], [s.endswith(c)] and the slice [s[1:-1]] *)
Definition startswith (c : char) (s : str) : bool :=
  match s with
  | [] => false
  | d :: _ => d =? c
  end.

Definition endswith (c : char) (s : str) : bool :=
  match last s with
  | Some d => d =? c
  | None => false
  end.

Definition slice_1_m1 (s : str) : str := removelast (tail s).

(** [sep.join(l)] *)
Fixpoint join (sep : str) (l : list str) : str :=
  match l with
  | [] => []
  | [x] => x
  | x :: l' => x ++ sep ++ join sep l'
  end.

(** Truthiness of a string: [if s:] *)
Definition truthy (s : str) : bool :=
  match s with
  | [] => false
  | _ => true
  end.

(** ** Exceptions

    Code inside a [try] block runs in an error monad; the handler decides
    what a raised exception becomes. *)

Inductive exn := IndexError | KeyError | ValueError | TransportError.

Inductive Result (A : Type) :=
  | Ok (a : A)
  | Raise (e : exn).
Arguments Ok {A} a.
Arguments Raise {A} e.

#[global] Instance Result_ret : MRet Result := fun A a => Ok a.
#[global] Instance Result_bind : MBind Result := fun A B k r =>
  match r with
  | Ok a => k a
  | Raise e => Raise e
  end.

#[global] Instance Result_fmap : FMap Result := fun A B f r =>
  match r with
  | Ok a => Ok (f a)
  | Raise e => Raise e
  end.

(** [a, b = l]: unpacking into two names. *)
Definition unpack2 {A} (l : list A) : Result (A * A) :=
  match l with
  | [a; b] => Ok (a, b)
  | _ => Raise ValueError
  end.

(** [d[k]] on a dictionary *)
Definition getitem {V} (d : gmap str V) (k : str) : Result V :=
  match d !! k with
  | Some v => Ok v
  | None => Raise KeyError
  end.

(** [l[i]] on a list, for a non-negative index *)
Definition index {A} (l : list A) (i : nat) : Result A :=
  match nth_error l i with
  | Some a => Ok a
  | None => Raise IndexError
  end.

(** The comprehension [[item.strip() for item in content.split(',')]] *)
Definition items_of (content : str) : list str := map strip (split COMMA content).

(** The profile: category name to ordered terms. *)
Abbreviation Profile := (gmap str (list str)).

(** [not analysis]: [None] and the empty dictionary are both falsy. *)
Definition falsy (analysis : option Profile) : bool :=
  match analysis with
  | None => true
  | Some m => bool_decide (m = ∅)
  end.

(** ** The music service

    The raw item of a search response, with the fields the code reads. The
    key [preview_url] is read with [.get]: it may be missing, or present
    with the value [None] or a string. *)

Record Artist := { artist_name : str }.
Record Image := { image_url : str }.
Record Album := { album_name : str; album_images : list Image }.

Record Item := {
  item_id : str;
  item_name : str;
  item_artists : list Artist;
  item_album : Album;
  item_uri : str;
  item_popularity : Z;
  item_preview_url : option (option str)
}.

(** A search query of the matching stage: [{'terms': ..., 'limit': ...}] *)
Record Query := { terms : str; limit : Z }.

(** What the calling code can observe of a created playlist. *)
Record Playlist := { playlist_id : str; playlist_url : str }.

(** The client object [sp]. The service is not a function of the request:
    the [n]-th call of a method gets its own answer. [search] stands for
    [sp.search(q=..., type="track", limit=...)] followed by
    [results["tracks"]["items"]], which raises on a transport error or on
    a response without these keys. *)
Record Spotify := {
  search : nat -> Query -> Result (list Item);
  current_user : Result str;
  user_playlist_create : str -> str -> bool -> str -> Result Playlist;
  playlist_add_items : nat -> str -> list str -> Result unit
}.

(** What the stage does that the caller can see besides its result. *)
Inductive Event :=
  | Searched (q : Query)
  | Warned (terms : str)
  | CreatedPlaylist (user name : str) (public : bool) (description : str)
  | AddedItems (playlist : str) (uris : list str).

(** [search_weights], in hundredths; [int(max_tracks * w)] truncates toward
    zero. The source multiplies by the binary floating-point constants 0.3,
    0.25 and 0.15; the product is taken here in exact arithmetic. The two
    agree for counts up to 10^15, where the rounding error of the product
    stays below the distance of the exact product to the next integer; for
    larger counts the floating-point product may truncate to another
    integer. *)
Definition weight_emotional_tones : Z := 30.
Definition weight_moods : Z := 30.
Definition weight_genres : Z := 25.
Definition weight_keywords : Z := 15.

Definition weighted (max_tracks w : Z) : Z := Z.quot (max_tracks * w) 100.

(** [l[:k]] for any integer [k]: a negative [k] counts from the end. *)
Definition slice_to {A} (k : Z) (l : list A) : list A :=
  if (k <? 0)%Z then firstn (length l - Z.to_nat (- k)) l
  else firstn (Z.to_nat k) l.

(** [l.sort(key=key, reverse=True)]: the stable sort of the language, by
    descending key. The list is rebuilt from its end: an element passes
    the later elements of strictly larger key and stays ahead of the
    others. *)
Section Sort.
Context {A : Type} (key : A -> Z).

Fixpoint insert_desc (x : A) (l : list A) : list A :=
  match l with
  | [] => [x]
  | y :: l' => if (key x <? key y)%Z then y :: insert_desc x l' else x :: l
  end.

Fixpoint sort_desc (l : list A) : list A :=
  match l with
  | [] => []
  | x :: l' => insert_desc x (sort_desc l')
  end.

(** The last two lines of [search_spotify_tracks]. *)
Definition rank (tracks : list A) (max_tracks : Z) : list A :=
  slice_to max_tracks (sort_desc tracks).
End Sort.

(** Category names the matching stage reads. *)
Definition GENRES : str := lit "Genres".
Definition EMOTIONAL_TONES : str := lit "Emotional Tones".
Definition MOODS : str := lit "Moods".
Definition KEYWORDS : str := lit "Keywords".

(** The driver's [if not tracks: ... return] after the matching call. *)
Inductive NoResults := NoTracksFound.

Definition classified {T} (tracks : list T) : NoResults + list T :=
  match tracks with
  | [] => inl NoTracksFound
  | _ => inr tracks
  end.

(** ** The book catalog

    The JSON body of a volumes request, with the keys the code reads; a key
    may be missing. [json] stands for [response.json()], which raises on a
    body that is not JSON. *)

Record ImageLinks := { thumbnail_link : option str }.

Record VolumeInfo := {
  volume_title : option str;
  volume_authors : option (list str);
  volume_description : option str;
  volume_image_links : option ImageLinks
}.

Record Volume := { volumeInfo : option VolumeInfo }.
Record Volumes := { volume_items : option (list Volume) }.
Record HttpResponse := { status_code : Z; json : Result Volumes }.

(** [response.raise_for_status()]: raises on a 4xx or 5xx status. *)
Definition raise_for_status (response : HttpResponse) : Result unit :=
  if (400 <=? status_code response)%Z && (status_code response <? 600)%Z
  then Raise TransportError else Ok tt.

(** [data["items"][0]["volumeInfo"]] *)
Definition first_volume_info (items : list Volume) : Result VolumeInfo :=
  volume ← index items 0;
  match volumeInfo volume with
  | Some book => Ok book
  | None => Raise KeyError
  end.

Definition UNKNOWN_TITLE : str := lit "Unknown Title".
Definition UNKNOWN_AUTHOR : str := lit "Unknown Author".
Definition NO_DESCRIPTION : str := lit "No description available.".
Definition VOLUMES_URL : str := lit "https://www.googleapis.com/books/v1/volumes?q=".

(** [popularity // 20 + 1], the number of stars both displays print; a
    string repeated a negative number of times is empty. *)
Definition popularity_stars (popularity : Z) : nat :=
  Z.to_nat (popularity / 20 + 1).

(** Where a run of [main] stops before it has tracks, by the message it
    prints. *)
Inductive Stop :=
  | MissingInput
  | BookNotFound
  | AnalysisFailed
  | ParseFailed
  | SpotifyUnavailable
  | NoTracks.

(** ** BookTrack.py *)

Module BookTrack.

(** One turn of the loop over the lines, on the pair of [sections] and
    [current_section]. *)
Definition parse_line (st : Profile * option str) (line : str)
  : Result (Profile * option str) :=
  let '(sections, current_section) := st in
  let line := strip line in
  if negb (truthy line) then Ok st
  else if contains COLON line then
    '(section_name, content) ← unpack2 (split1 COLON line);
    let section_name := strip section_name in
    let content := strip content in
    let content :=
      if startswith LBRACKET content && endswith RBRACKET content
      then slice_1_m1 content else content in
    Ok (<[section_name := items_of content]> sections, Some section_name)
  else
    match current_section with
    | Some cur =>
        if truthy cur then
          let additional_content := strip line in
          if truthy additional_content then
            l ← getitem sections cur;
            Ok (<[cur := l ++ items_of additional_content]> sections,
                current_section)
          else Ok st
        else Ok st
    | None => Ok st
    end.

Fixpoint parse_lines (lines : list str) (st : Profile * option str)
  : Result (Profile * option str) :=
  match lines with
  | [] => Ok st
  | line :: lines' => st' ← parse_line st line; parse_lines lines' st'
  end.

(** [None] is the function's [return None]: on an empty text, and in the
    handler of any exception of the loop. *)
Definition parse_gemini_analysis (analysis_text : str) : option Profile :=
  if negb (truthy analysis_text) then None
  else
    match parse_lines (split NEWLINE analysis_text) (∅, None) with
    | Ok (sections, _) => Some sections
    | Raise _ => None
    end.

Record Track := {
  id : str;
  name : str;
  artist : str;
  album : str;
  uri : str;
  popularity : Z;
  preview_url : option str;
  album_image : str
}.

(** The body of the loop over the items, up to the membership test. *)
Definition track_of_item (item : Item) : Result Track :=
  let preview_url :=
    match item_preview_url item with
    | Some v => v
    | None => Some []
    end in
  album_image ←
    match album_images (item_album item) with
    | [] => Ok []
    | images => img ← index images 1; Ok (image_url img)
    end;
  first_artist ← index (item_artists item) 0;
  Ok {| id := item_id item;
        name := item_name item;
        artist := artist_name first_artist;
        album := album_name (item_album item);
        uri := item_uri item;
        popularity := item_popularity item;
        preview_url := preview_url;
        album_image := album_image |}.

(** [any(t["id"] == track["id"] for t in tracks)] *)
Definition already_listed (track : Track) (tracks : list Track) : bool :=
  existsb (fun t => bool_decide (id t = id track)) tracks.

(** The loop over the items of one response. [tracks] is appended to in
    place: what was appended before an exception stays. *)
Fixpoint add_items (items : list Item) (tracks : list Track)
  : list Track * option exn :=
  match items with
  | [] => (tracks, None)
  | item :: items' =>
      match track_of_item item with
      | Raise e => (tracks, Some e)
      | Ok track =>
          add_items items'
            (if already_listed track tracks then tracks else tracks ++ [track])
      end
  end.

Definition genre_queries (analysis : Profile) (max_tracks : Z) : list Query :=
  match analysis !! GENRES with
  | Some genres =>
      map (fun genre =>
             {| terms := lit "genre:" ++ [QUOTE] ++ genre ++ [QUOTE];
                limit := weighted max_tracks weight_genres |}) genres
  | None => []
  end.

Definition combination_queries (analysis : Profile) (max_tracks : Z)
  : list Query :=
  match analysis !! EMOTIONAL_TONES, analysis !! GENRES with
  | Some tones, Some genres =>
      flat_map (fun tone =>
        map (fun genre =>
               {| terms := tone ++ [SPACE] ++ genre;
                  limit := weighted max_tracks weight_emotional_tones |})
            (firstn 2 genres))
        (firstn 2 tones)
  | _, _ => []
  end.

Definition mood_queries (analysis : Profile) (max_tracks : Z) : list Query :=
  match analysis !! MOODS with
  | Some moods =>
      map (fun mood =>
             {| terms := mood; limit := weighted max_tracks weight_moods |})
          (firstn 3 moods)
  | None => []
  end.

Definition keyword_queries (analysis : Profile) (max_tracks : Z)
  : list Query :=
  match analysis !! KEYWORDS with
  | Some keywords =>
      map (fun keyword =>
             {| terms := keyword;
                limit := weighted max_tracks weight_keywords |}) keywords
  | None => []
  end.

Definition search_queries (analysis : Profile) (max_tracks : Z) : list Query :=
  genre_queries analysis max_tracks
  ++ combination_queries analysis max_tracks
  ++ mood_queries analysis max_tracks
  ++ keyword_queries analysis max_tracks.

(** The loop over the queries; [n] counts the calls of [sp.search]. *)
Fixpoint run_queries (sp : Spotify) (n : nat) (queries : list Query)
    (tracks : list Track) (log : list Event) : list Track * list Event :=
  match queries with
  | [] => (tracks, log)
  | query :: queries' =>
      match search sp n query with
      | Raise _ =>
          run_queries sp (S n) queries' tracks
            (log ++ [Searched query; Warned (terms query)])
      | Ok items =>
          match add_items items tracks with
          | (tracks', Some _) =>
              run_queries sp (S n) queries' tracks'
                (log ++ [Searched query; Warned (terms query)])
          | (tracks', None) =>
              run_queries sp (S n) queries' tracks' (log ++ [Searched query])
          end
      end
  end.

Definition search_spotify_tracks (sp : option Spotify)
    (analysis : option Profile) (max_tracks : Z) : list Track * list Event :=
  match sp, analysis with
  | Some sp, Some profile =>
      if falsy analysis then ([], [])
      else
        let '(tracks, log) :=
          run_queries sp 0 (search_queries profile max_tracks) [] [] in
        (rank popularity tracks max_tracks, log)
  | _, _ => ([], [])
  end.

(** *** Book lookup and the driver *)

Record Keys := {
  GOOGLE_BOOKS_API_KEY : str;
  GEMINI_API_KEY : str;
  SPOTIFY_CLIENT_ID : str;
  SPOTIFY_CLIENT_SECRET : str
}.

Record BookInfo := {
  title : str;
  authors : list str;
  summary : str;
  thumbnail : str
}.

Definition book_url (keys : Keys) (title author : str) : str :=
  let query := lit "intitle:" ++ title ++ lit "+inauthor:" ++ author in
  VOLUMES_URL ++ query ++ lit "&key=" ++ GOOGLE_BOOKS_API_KEY keys.

Definition book_of_volume (book : VolumeInfo) : BookInfo :=
  {| title := default UNKNOWN_TITLE (volume_title book);
     authors := default [UNKNOWN_AUTHOR] (volume_authors book);
     summary := default NO_DESCRIPTION (volume_description book);
     thumbnail :=
       default [] (thumbnail_link
                     (default {| thumbnail_link := None |}
                        (volume_image_links book))) |}.

(** [keys] is what [load_api_keys()] returns, [get] is [requests.get]. The
    handler of the [try] block turns every exception into [None]. *)
Definition get_book_info (keys : option Keys) (get : str → Result HttpResponse)
    (title author : str) : option BookInfo :=
  match keys with
  | None => None
  | Some keys =>
      let attempt :=
        response ← get (book_url keys title author);
        _ ← raise_for_status response;
        data ← json response;
        match volume_items data with
        | None | Some [] => Ok None
        | Some items =>
            book ← first_volume_info items; Ok (Some (book_of_volume book))
        end in
      match attempt with
      | Ok found => found
      | Raise _ => None
      end
  end.

(** The run of [main] after the form is submitted, up to the tracks. The
    text generation ([analyze_book_with_gemini], a call of the generative
    service) and the client set-up ([setup_spotify_client]) are taken by
    their results. [None] is a run without a submitted form. *)
Definition main (submit_button : bool) (book_title book_author : str)
    (keys : option Keys) (get : str → Result HttpResponse)
    (analyze : BookInfo → option str) (sp : option Spotify)
  : option (Stop + list Track) * list Event :=
  if submit_button && truthy book_title && truthy book_author then
    match get_book_info keys get book_title book_author with
    | None => (Some (inl BookNotFound), [])
    | Some book_info =>
        match analyze book_info with
        | None | Some [] => (Some (inl AnalysisFailed), [])
        | Some analysis_text =>
            let analysis := parse_gemini_analysis analysis_text in
            if falsy analysis then (Some (inl ParseFailed), [])
            else
              match sp with
              | None => (Some (inl SpotifyUnavailable), [])
              | Some _ =>
                  let '(tracks, log) := search_spotify_tracks sp analysis 15 in
                  match tracks with
                  | [] => (Some (inl NoTracks), log)
                  | _ => (Some (inr tracks), log)
                  end
              end
        end
    end
  else (None, []).

End BookTrack.

(** ** book_soundtrack.py *)

Module BookSoundtrack.

(** One turn of the loop over the lines: lines without a colon are
    skipped, there is no current section. *)
Definition parse_line (sections : Profile) (line : str) : Result Profile :=
  let line := strip line in
  if negb (truthy line) || negb (contains COLON line) then Ok sections
  else
    '(section_name, content) ← unpack2 (split1 COLON line);
    let section_name := strip section_name in
    let content := strip content in
    let content :=
      if startswith LBRACKET content && endswith RBRACKET content
      then slice_1_m1 content else content in
    Ok (<[section_name := items_of content]> sections).

Fixpoint parse_lines (lines : list str) (sections : Profile) : Result Profile :=
  match lines with
  | [] => Ok sections
  | line :: lines' =>
      sections' ← parse_line sections line; parse_lines lines' sections'
  end.

Definition parse_gemini_analysis (analysis_text : str) : option Profile :=
  if negb (truthy analysis_text) then None
  else
    match parse_lines (split NEWLINE analysis_text) ∅ with
    | Ok sections => Some sections
    | Raise _ => None
    end.

Record Track := {
  id : str;
  name : str;
  artist : str;
  album : str;
  uri : str;
  popularity : Z
}.

#[global] Instance Track_eq_dec : EqDecision Track.
Proof. solve_decision. Defined.

Definition track_of_item (item : Item) : Result Track :=
  first_artist ← index (item_artists item) 0;
  Ok {| id := item_id item;
        name := item_name item;
        artist := artist_name first_artist;
        album := album_name (item_album item);
        uri := item_uri item;
        popularity := item_popularity item |}.

(** [track not in tracks] compares whole dictionaries. *)
Fixpoint add_items (items : list Item) (tracks : list Track)
  : list Track * option exn :=
  match items with
  | [] => (tracks, None)
  | item :: items' =>
      match track_of_item item with
      | Raise e => (tracks, Some e)
      | Ok track =>
          add_items items'
            (if bool_decide (track ∈ tracks) then tracks else tracks ++ [track])
      end
  end.

Definition genre_queries (analysis : Profile) (max_tracks : Z) : list Query :=
  match analysis !! GENRES with
  | Some genres =>
      map (fun genre =>
             {| terms := lit "genre:" ++ [QUOTE] ++ genre ++ [QUOTE];
                limit := weighted max_tracks weight_genres |}) genres
  | None => []
  end.

Definition combination_queries (analysis : Profile) (max_tracks : Z)
  : list Query :=
  match analysis !! EMOTIONAL_TONES, analysis !! GENRES with
  | Some tones, Some genres =>
      flat_map (fun tone =>
        map (fun genre =>
               {| terms := tone ++ [SPACE] ++ genre;
                  limit := weighted max_tracks weight_emotional_tones |})
            (firstn 2 genres))
        tones
  | _, _ => []
  end.

Definition mood_queries (analysis : Profile) (max_tracks : Z) : list Query :=
  match analysis !! MOODS with
  | Some moods =>
      map (fun mood =>
             {| terms := mood; limit := weighted max_tracks weight_moods |})
          moods
  | None => []
  end.

Definition keyword_queries (analysis : Profile) (max_tracks : Z)
  : list Query :=
  match analysis !! KEYWORDS with
  | Some keywords =>
      map (fun keyword =>
             {| terms := keyword;
                limit := weighted max_tracks weight_keywords |}) keywords
  | None => []
  end.

Definition search_queries (analysis : Profile) (max_tracks : Z) : list Query :=
  genre_queries analysis max_tracks
  ++ combination_queries analysis max_tracks
  ++ mood_queries analysis max_tracks
  ++ keyword_queries analysis max_tracks.

Fixpoint run_queries (sp : Spotify) (n : nat) (queries : list Query)
    (tracks : list Track) (log : list Event) : list Track * list Event :=
  match queries with
  | [] => (tracks, log)
  | query :: queries' =>
      match search sp n query with
      | Raise _ =>
          run_queries sp (S n) queries' tracks
            (log ++ [Searched query; Warned (terms query)])
      | Ok items =>
          match add_items items tracks with
          | (tracks', Some _) =>
              run_queries sp (S n) queries' tracks'
                (log ++ [Searched query; Warned (terms query)])
          | (tracks', None) =>
              run_queries sp (S n) queries' tracks' (log ++ [Searched query])
          end
      end
  end.

Definition search_spotify_tracks (sp : option Spotify)
    (analysis : option Profile) (max_tracks : Z) : list Track * list Event :=
  match sp, analysis with
  | Some sp, Some profile =>
      if falsy analysis then ([], [])
      else
        let '(tracks, log) :=
          run_queries sp 0 (search_queries profile max_tracks) [] [] in
        (rank popularity tracks max_tracks, log)
  | _, _ => ([], [])
  end.

(** *** Playlist creation *)

Record BookInfo := { title : str; authors : list str; summary : str }.

Definition playlist_name (book_info : BookInfo) : str :=
  [BOOKS; SPACE] ++ title book_info ++ lit " - Literary Soundtrack".

(** [analysis.get(k)] in a condition: present and not empty. *)
Definition get_truthy (analysis : Profile) (k : str) : option (list str) :=
  match analysis !! k with
  | Some (x :: l) => Some (x :: l)
  | _ => None
  end.

Definition description_elements (analysis : Profile) : list str :=
  match get_truthy analysis GENRES with
  | Some genres => [lit "Genres: " ++ join (lit ", ") (firstn 3 genres)]
  | None => []
  end
  ++
  match get_truthy analysis MOODS with
  | Some moods => [lit "Moods: " ++ join (lit ", ") (firstn 3 moods)]
  | None => []
  end.

Definition playlist_description (book_info : BookInfo) (analysis : Profile)
  : str :=
  lit "A curated soundtrack for " ++ title book_info ++ lit " "
  ++ lit "by " ++ join (lit ", ") (authors book_info) ++ lit ". "
  ++ join (lit " | ") (description_elements analysis).

(** [range(0, len(track_uris), batch_size)] with its slices; [fuel] bounds
    the number of batches. *)
Fixpoint batches {A} (fuel batch_size : nat) (l : list A) : list (list A) :=
  match fuel, l with
  | S fuel', _ :: _ =>
      firstn batch_size l :: batches fuel' batch_size (skipn batch_size l)
  | _, _ => []
  end.

(** The loop adding the batches; stops at the first call that raises. *)
Fixpoint add_batches (sp : Spotify) (n : nat) (playlist : str)
    (bs : list (list str)) (log : list Event) : Result unit * list Event :=
  match bs with
  | [] => (Ok tt, log)
  | batch :: bs' =>
      match playlist_add_items sp n playlist batch with
      | Ok _ => add_batches sp (S n) playlist bs' (log ++ [AddedItems playlist batch])
      | Raise e => (Raise e, log ++ [AddedItems playlist batch])
      end
  end.

(** Returns the playlist URL, or [None], and the calls made. *)
Definition create_spotify_playlist (sp : option Spotify)
    (book_info : BookInfo) (tracks : list Track) (analysis : Profile)
  : option str * list Event :=
  match sp, tracks with
  | Some sp, _ :: _ =>
      match current_user sp with
      | Raise _ => (None, [])
      | Ok user_id =>
          let description :=
            firstn 300 (playlist_description book_info analysis) in
          let call :=
            CreatedPlaylist user_id (playlist_name book_info) true description in
          match user_playlist_create sp user_id (playlist_name book_info)
                  true description with
          | Raise _ => (None, [call])
          | Ok playlist =>
              let track_uris := map uri tracks in
              match add_batches sp 0 (playlist_id playlist)
                      (batches (length track_uris) 50 track_uris) [call] with
              | (Ok _, log) => (Some (playlist_url playlist), log)
              | (Raise _, log) => (None, log)
              end
          end
      end
  | _, _ => (None, [])
  end.

(** *** Book lookup and the driver *)

(** The three search strategies; [quote] is [urllib.parse.quote]. *)
Definition search_strategies (quote : str → str) (title author : str)
  : list (str * str) :=
  [ (quote (title ++ [SPACE] ++ author), lit "&langRestrict=id&maxResults=10");
    (quote ([QUOTE] ++ title ++ [QUOTE] ++ lit " inauthor:"
              ++ [QUOTE] ++ author ++ [QUOTE]),
     lit "&maxResults=10");
    (quote (lit "intitle:" ++ title ++ lit " inauthor:" ++ author),
     lit "&maxResults=10") ].

Definition strategy_url (api_key : str) (strategy : str * str) : str :=
  VOLUMES_URL ++ strategy.1 ++ strategy.2 ++ lit "&key=" ++ api_key.

Definition book_of_volume (book : VolumeInfo) : BookInfo :=
  {| title := default UNKNOWN_TITLE (volume_title book);
     authors := default [UNKNOWN_AUTHOR] (volume_authors book);
     summary := default NO_DESCRIPTION (volume_description book) |}.

(** One turn of the loop over the strategies: [Some] is the [return] inside
    the loop, [None] goes on to the next strategy (a status other than 200,
    no items, or an exception, which the handlers only report). *)
Definition try_strategy (response : Result HttpResponse) : option BookInfo :=
  let attempt :=
    response ← response;
    if negb (status_code response =? 200)%Z then Ok None
    else
      data ← json response;
      match volume_items data with
      | None | Some [] => Ok None
      | Some items =>
          book ← first_volume_info items; Ok (Some (book_of_volume book))
      end in
  match attempt with
  | Ok found => found
  | Raise _ => None
  end.

(** The loop; [n] counts the calls of [requests.get], the URLs requested
    are collected. *)
Fixpoint try_strategies (get : nat → str → Result HttpResponse) (n : nat)
    (urls : list str) (requested : list str) : option BookInfo * list str :=
  match urls with
  | [] => (None, requested)
  | url :: urls' =>
      match try_strategy (get n url) with
      | Some book_info => (Some book_info, requested ++ [url])
      | None => try_strategies get (S n) urls' (requested ++ [url])
      end
  end.

Definition get_book_info (quote : str → str) (api_key : str)
    (get : nat → str → Result HttpResponse) (title author : str)
  : option BookInfo * list str :=
  try_strategies get 0
    (map (strategy_url api_key) (search_strategies quote title author)) [].

(** The run of [main]: the inputs, the stages in turn, and the optional
    playlist ([create] is the choice "Yes" of the select box). The text
    generation and the client set-up are taken by their results;
    [analyze_book_with_gemini] makes its client outside its [try] block, so
    that it may raise, and the exception leaves [main]. The result is where
    the run stopped, or the tracks with the outcome of the playlist
    creation when it was asked for. The log holds the requests sent
    through the client object [sp]; the authorisation exchange that
    [setup_spotify_client] makes before it returns the client, or [None],
    is not in it. *)
Definition main (book_title book_author : str) (quote : str → str)
    (api_key : str) (get : nat → str → Result HttpResponse)
    (analyze : BookInfo → Result (option str)) (sp : option Spotify)
    (create : bool)
  : Result (Stop + list Track * option (option str)) * list Event :=
  if negb (truthy book_title) || negb (truthy book_author)
  then (Ok (inl MissingInput), [])
  else
    match (get_book_info quote api_key get book_title book_author).1 with
    | None => (Ok (inl BookNotFound), [])
    | Some book_info =>
        match analyze book_info with
        | Raise e => (Raise e, [])
        | Ok None | Ok (Some []) => (Ok (inl AnalysisFailed), [])
        | Ok (Some analysis_text) =>
            match parse_gemini_analysis analysis_text with
            | None => (Ok (inl ParseFailed), [])
            | Some analysis =>
                if falsy (Some analysis) then (Ok (inl ParseFailed), [])
                else
                  match sp with
                  | None => (Ok (inl SpotifyUnavailable), [])
                  | Some _ =>
                      let '(tracks, log) :=
                        search_spotify_tracks sp (Some analysis) 15 in
                      match tracks with
                      | [] => (Ok (inl NoTracks), log)
                      | _ =>
                          if create then
                            let '(playlist_url, calls) :=
                              create_spotify_playlist sp book_info tracks analysis in
                            (Ok (inr (tracks, Some playlist_url)), log ++ calls)
                          else (Ok (inr (tracks, None)), log)
                      end
                  end
            end
        end
    end.

End BookSoundtrack.

(** * Vocabulary of the statements *)

(** Every stored term is its own strip. *)
Definition all_trimmed (sections : Profile) : Prop :=
  map_Forall (λ _ l, Forall (λ x, strip x = x) l) sections.

(** The current section of [BookTrack.py], when there is one, is a key of
    [sections]: the lookup of the continuation branch finds it. *)
Definition current_known (st : Profile * option str) : Prop :=
  ∀ cur, st.2 = Some cur → is_Some (st.1 !! cur).

Definition has_colon_line (text : str) : bool :=
  existsb (contains COLON) (split NEWLINE text).

Definition bracket_free (s : str) : bool :=
  negb (contains LBRACKET s || contains RBRACKET s).


Definition descending {A} (key : A → Z) (l : list A) : Prop :=
  StronglySorted (λ a b, (key b ≤ key a)%Z) l.

(** The loops of [search_spotify_tracks], restated as list functions: the
    answers of the service in call order, what each answer contributes, and
    the merge under the membership test of each file. *)

Fixpoint responses (sp : Spotify) (n : nat) (queries : list Query)
  : list (Result (list Item)) :=
  match queries with
  | [] => []
  | query :: queries' => search sp n query :: responses sp (S n) queries'
  end.

Definition raises {A} (r : Result A) : bool :=
  match r with
  | Raise _ => true
  | Ok _ => false
  end.

(** The calls and warnings of the loop, from the queries and their answers. *)
Definition trace (failed : Result (list Item) → bool) (queries : list Query)
    (rs : list (Result (list Item))) : list Event :=
  concat (zip_with (λ q r, Searched q :: if failed r then [Warned (terms q)] else [])
            queries rs).

Section Aggregation.
Context {Track : Type} (track_of_item : Item → Result Track)
  (listed : Track → list Track → bool).

(** The tracks of the items before the first one that raises. *)
Fixpoint normalised_prefix (items : list Item) : list Track :=
  match items with
  | [] => []
  | item :: items' =>
      match track_of_item item with
      | Ok track => track :: normalised_prefix items'
      | Raise _ => []
      end
  end.

(** A query fails when the search raises or an item of its answer does. *)
Definition query_failed (r : Result (list Item)) : bool :=
  match r with
  | Raise _ => true
  | Ok items => existsb (λ item, raises (track_of_item item)) items
  end.

(** What the code adds for one answer. *)
Definition contribution (r : Result (list Item)) : list Track :=
  match r with
  | Raise _ => []
  | Ok items => normalised_prefix items
  end.

(** What a reading where a failing query adds nothing would give. *)
Definition contribution_if_successful (r : Result (list Item)) : list Track :=
  if query_failed r then [] else contribution r.

(** Appending under the membership test. *)
Definition merge (tracks new : list Track) : list Track :=
  fold_left (λ acc t, if listed t acc then acc else acc ++ [t]) new tracks.

End Aggregation.

(** The membership tests of the two files, as functions. *)
Definition listed_by_id (track : BookTrack.Track) (tracks : list BookTrack.Track) : bool :=
  BookTrack.already_listed track tracks.

Definition listed_whole (track : BookSoundtrack.Track)
    (tracks : list BookSoundtrack.Track) : bool :=
  bool_decide (track ∈ tracks).

(** The calls of [sp.search] and the warnings in a log. *)
Definition searches (log : list Event) : list Query :=
  omap (λ e, match e with Searched q => Some q | _ => None end) log.

Definition warnings (log : list Event) : list str :=
  omap (λ e, match e with Warned t => Some t | _ => None end) log.

(** The queries whose answer failed, in order. *)
Definition failing (failed : Result (list Item) → bool) (queries : list Query)
    (rs : list (Result (list Item))) : list Query :=
  omap (λ qr : Query * Result (list Item), if failed qr.2 then Some qr.1 else None)
       (zip queries rs).

(** The content of a line after the bracket test of the parsers. *)
Definition unwrap (content : str) : str :=
  if startswith LBRACKET content && endswith RBRACKET content
  then slice_1_m1 content else content.

(** What a line with a colon says: its label and its terms. *)
Definition labelled (line : str) : option (str * list str) :=
  let line := strip line in
  if contains COLON line then
    match split1 COLON line with
    | [section_name; content] =>
        Some (strip section_name, items_of (unwrap (strip content)))
    | _ => None
    end
  else None.

(** The labels of a text, in line order. *)
Definition labels (text : str) : list (str * list str) :=
  omap labelled (split NEWLINE text).

(** Storing labels one after the other. *)
Definition store_all (sections : Profile) (entries : list (str * list str))
  : Profile :=
  foldl (λ m entry, <[entry.1 := entry.2]> m) sections entries.

(** The line format the prompt asks for: [Label: [a, b, c]]. *)
Definition format_line (entry : str * list str) : str :=
  entry.1 ++ lit ": [" ++ join (lit ", ") entry.2 ++ lit "]".

Definition format_profile (entries : list (str * list str)) : str :=
  join [NEWLINE] (map format_line entries).

(** A label and a term as the format can carry them. *)
Definition plain_label (k : str) : Prop :=
  strip k = k ∧ (COLON ∉ k) ∧ (NEWLINE ∉ k).

Definition plain_term (x : str) : Prop :=
  strip x = x ∧ (COMMA ∉ x) ∧ (NEWLINE ∉ x).

Definition plain_entry (entry : str * list str) : Prop :=
  plain_label entry.1 ∧ entry.2 ≠ [] ∧ Forall plain_term entry.2.

(** A line the two parsers treat alike: blank, or with a colon. *)
Definition blank_or_labelled (line : str) : Prop :=
  strip line = [] ∨ contains COLON line = true.

(** The terms of a category, none when it is absent. *)
Definition terms_of (analysis : Profile) (category : str) : list str :=
  default [] (analysis !! category).

(** The categories the matching stage reads. *)
Definition read_categories : list str :=
  [GENRES; EMOTIONAL_TONES; MOODS; KEYWORDS].

(** The URIs of the batches the playlist creation sent, in call order. *)
Definition sent_uris (log : list Event) : list str :=
  concat (omap (λ e, match e with AddedItems _ uris => Some uris | _ => None end)
            log).

(** The batches sent. *)
Definition sent_batches (log : list Event) : list (list str) :=
  omap (λ e, match e with AddedItems _ uris => Some uris | _ => None end) log.

(** Labels and terms of a profile are all plain; a term may be empty. *)
Definition clean_profile (sections : Profile) : Prop :=
  map_Forall (λ k l, plain_label k ∧ Forall plain_term l) sections.

(** The playlists a log creates: user, name, visibility and description. *)
Definition created (log : list Event) : list (str * str * bool * str) :=
  omap (λ e, match e with
             | CreatedPlaylist user name public description =>
                 Some (user, name, public, description)
             | _ => None
             end) log.

(** * Worked inputs *)

Definition two_images : list Image :=
  [ {| image_url := lit "https://img/640" |}; {| image_url := lit "https://img/300" |} ].

(** An item as the service returns it, with track id T1. *)
Definition item_T1 (popularity : Z) : Item :=
  {| item_id := lit "T1";
     item_name := lit "Song";
     item_artists := [ {| artist_name := lit "Band" |} ];
     item_album := {| album_name := lit "LP"; album_images := two_images |};
     item_uri := lit "spotify:track:T1";
     item_popularity := popularity;
     item_preview_url := Some (Some (lit "https://p/T1")) |}.

(** An item whose album has exactly one image. *)
Definition item_one_image : Item :=
  {| item_id := lit "T2";
     item_name := lit "Other";
     item_artists := [ {| artist_name := lit "Band" |} ];
     item_album := {| album_name := lit "EP";
                      album_images := [ {| image_url := lit "https://img/640" |} ] |};
     item_uri := lit "spotify:track:T2";
     item_popularity := 40;
     item_preview_url := Some None |}.

Definition no_playlists (search : nat → Query → Result (list Item)) : Spotify :=
  {| search := search;
     current_user := Raise TransportError;
     user_playlist_create := λ _ _ _ _, Raise TransportError;
     playlist_add_items := λ _ _ _, Raise TransportError |}.

(** A catalog whose popularity figure for T1 changes between two calls. *)
Definition changing_catalog : Spotify :=
  no_playlists (λ n _, Ok [item_T1 (if n is O then 50 else 60)]).

(** A catalog answering with a good item followed by [item_one_image]. *)
Definition one_image_catalog : Spotify :=
  no_playlists (λ _ _, Ok [item_T1 50; item_one_image]).

Definition rock_sea : Profile :=
  {[ GENRES := [lit "rock"]; KEYWORDS := [lit "sea"] ]}.

Definition only_sea : Profile := {[ KEYWORDS := [lit "sea"] ]}.

Definition three_tones : Profile :=
  {[ EMOTIONAL_TONES := [lit "joy"; lit "awe"; lit "fear"]; GENRES := [lit "rock"] ]}.

Definition query_rock : Query :=
  {| terms := lit "genre:" ++ [QUOTE] ++ lit "rock" ++ [QUOTE]; limit := 3 |}.
Definition query_sea : Query := {| terms := lit "sea"; limit := 2 |}.

Definition emma : BookSoundtrack.BookInfo :=
  {| BookSoundtrack.title := lit "Emma";
     BookSoundtrack.authors := [lit "Jane Austen"];
     BookSoundtrack.summary := lit "A novel." |}.

Definition account : Spotify :=
  {| search := λ _ _, Ok [];
     current_user := Ok (lit "reader");
     user_playlist_create := λ _ _ _ _,
       Ok {| playlist_id := lit "P1"; playlist_url := lit "https://open/P1" |};
     playlist_add_items := λ _ _ _, Ok tt |}.

Definition plain (id : str) (popularity : Z) : BookSoundtrack.Track :=
  {| BookSoundtrack.id := id;
     BookSoundtrack.name := lit "Song";
     BookSoundtrack.artist := lit "Band";
     BookSoundtrack.album := lit "LP";
     BookSoundtrack.uri := lit "spotify:track:" ++ id;
     BookSoundtrack.popularity := popularity |}.



Definition full_T1 : BookTrack.Track :=
  {| BookTrack.id := lit "T1";
     BookTrack.name := lit "Song";
     BookTrack.artist := lit "Band";
     BookTrack.album := lit "LP";
     BookTrack.uri := lit "spotify:track:T1";
     BookTrack.popularity := 50;
     BookTrack.preview_url := Some (lit "https://p/T1");
     BookTrack.album_image := lit "https://img/300" |}.

(** A catalog answer with one volume that has a title only. *)
Definition emma_volume : VolumeInfo :=
  {| volume_title := Some (lit "Emma");
     volume_authors := None;
     volume_description := None;
     volume_image_links := None |}.

Definition emma_response : HttpResponse :=
  {| status_code := 200;
     json := Ok {| volume_items := Some [ {| volumeInfo := Some emma_volume |} ] |} |}.

Definition some_keys : BookTrack.Keys :=
  {| BookTrack.GOOGLE_BOOKS_API_KEY := lit "k1";
     BookTrack.GEMINI_API_KEY := lit "k2";
     BookTrack.SPOTIFY_CLIENT_ID := lit "k3";
     BookTrack.SPOTIFY_CLIENT_SECRET := lit "k4" |}.

(** A catalog front end that is down for the first request only. *)
Definition second_try (n : nat) (url : str) : Result HttpResponse :=
  match n with
  | O => Raise TransportError
  | _ => Ok emma_response
  end.

(** * Properties *)

(** ** Strings *)

Section Strings.
Implicit Types (s : str) (c : char).

Lemma rstrip_nil_or_last s :
  rstrip s = [] ∨ ∃ r d, rstrip s = r ++ [d] ∧ isspace d = false.
Proof.
  induction s as [|c s IH]; simpl; [by left|].
  destruct IH as [->|(r & d & -> & Hd)].
  - destruct (isspace c) eqn:Hc; [by left|].
    right. by exists [], c.
  - right. exists (c :: r), d. by destruct r.
Qed.

Lemma rstrip_app_last r d : isspace d = false → rstrip (r ++ [d]) = r ++ [d].
Proof.
  intros Hd. induction r as [|c r IH]; simpl.
  - by rewrite Hd.
  - rewrite IH. by destruct r.
Qed.

Lemma rstrip_idem s : rstrip (rstrip s) = rstrip s.
Proof.
  destruct (rstrip_nil_or_last s) as [->|(r & d & -> & Hd)]; [done|].
  by apply rstrip_app_last.
Qed.

Lemma rstrip_cons_keep c s : isspace c = false → ∃ t, rstrip (c :: s) = c :: t.
Proof.
  intros Hc. simpl. destruct (rstrip s) as [|d r]; rewrite ?Hc; eauto.
Qed.

Lemma lstrip_head s : lstrip s = [] ∨ ∃ c t, lstrip s = c :: t ∧ isspace c = false.
Proof.
  induction s as [|c s IH]; simpl; [by left|].
  destruct (isspace c) eqn:Hc; [done|]. right. eauto.
Qed.

Lemma lstrip_keep c s : isspace c = false → lstrip (c :: s) = c :: s.
Proof. intros Hc. simpl. by rewrite Hc. Qed.

(** A stripped string is its own strip. *)
Lemma strip_idem s : strip (strip s) = strip s.
Proof.
  unfold strip.
  destruct (lstrip_head s) as [->|(c & t & -> & Hc)]; [done|].
  destruct (rstrip_cons_keep c t Hc) as [t' Ht'].
  rewrite Ht', (lstrip_keep _ _ Hc), <- Ht'. apply rstrip_idem.
Qed.

Lemma elem_of_lstrip c s : c ∈ lstrip s → c ∈ s.
Proof.
  induction s as [|d s IH]; simpl; [done|].
  destruct (isspace d); [|done]. intros H. right. auto.
Qed.

Lemma elem_of_rstrip c s : c ∈ rstrip s → c ∈ s.
Proof.
  revert c. induction s as [|d s IH]; simpl; intros c; [done|].
  destruct (rstrip s) as [|e r].
  - destruct (isspace d); [by intros ?%elem_of_nil|].
    intros ->%list_elem_of_singleton. by left.
  - intros [->|H]%elem_of_cons; [by left|]. right. by apply IH.
Qed.

Lemma elem_of_strip c s : c ∈ strip s → c ∈ s.
Proof. intros H. by apply elem_of_lstrip, elem_of_rstrip. Qed.

Lemma lstrip_keeps_visible c s : isspace c = false → c ∈ s → c ∈ lstrip s.
Proof.
  intros Hc. induction s as [|d s IH]; simpl; [done|].
  intros [<-|H]%elem_of_cons; [by rewrite Hc; left|].
  destruct (isspace d); [auto|by right].
Qed.

Lemma rstrip_keeps_visible c s : isspace c = false → c ∈ s → c ∈ rstrip s.
Proof.
  intros Hc. induction s as [|d s IH]; simpl; [done|].
  intros [<-|H]%elem_of_cons.
  - destruct (rstrip s); [rewrite Hc|]; by left.
  - specialize (IH H). destruct (rstrip s); [by apply elem_of_nil in IH|by right].
Qed.

Lemma contains_elem_of c s : contains c s = true ↔ c ∈ s.
Proof.
  unfold contains. rewrite existsb_exists. split.
  - intros (x & Hx%list_elem_of_In & ->%N.eqb_eq). done.
  - intros H. exists c. rewrite <- list_elem_of_In, N.eqb_refl. done.
Qed.

Lemma contains_strip c s :
  isspace c = false → contains c (strip s) = contains c s.
Proof.
  intros Hc. apply eq_true_iff_eq. rewrite !contains_elem_of. split.
  - apply elem_of_strip.
  - intros H. by apply rstrip_keeps_visible, lstrip_keeps_visible.
Qed.

(** Splitting at the first separator yields exactly two parts when there is
    one, so that the unpacking into two names cannot fail. *)
Lemma split1_contains sep s :
  contains sep s = true →
  ∃ a b, split1 sep s = [a; b] ∧ s = a ++ sep :: b.
Proof.
  induction s as [|c s IH]; simpl; [done|].
  rewrite (N.eqb_sym sep c).
  destruct (c =? sep) eqn:Hc; simpl.
  - apply N.eqb_eq in Hc as ->. intros _. by exists [], s.
  - intros (a & b & -> & ->)%IH. by exists (c :: a), b.
Qed.

Lemma split1_first sep a b :
  contains sep a = false → split1 sep (a ++ sep :: b) = [a; b].
Proof.
  induction a as [|c a IH]; simpl.
  - by rewrite N.eqb_refl.
  - rewrite (N.eqb_sym sep c). destruct (c =? sep); [done|]. simpl.
    intros H. by rewrite IH.
Qed.

Lemma split_nonempty sep s : split sep s ≠ [].
Proof.
  destruct s as [|c s]; simpl; [done|].
  destruct (c =? sep); [done|]. by destruct (split sep s).
Qed.

(** The pieces of a split are made of characters of the string. *)
Lemma elem_of_split sep s p c : p ∈ split sep s → c ∈ p → c ∈ s.
Proof.
  revert p. induction s as [|d s IH]; simpl; intros p.
  - intros ->%list_elem_of_singleton. done.
  - destruct (d =? sep).
    + intros [->|H]%elem_of_cons; [by intros ?%elem_of_nil|].
      intros Hc. right. eauto.
    + destruct (split sep s) as [|h t] eqn:Hs.
      * intros ->%list_elem_of_singleton. intros ->%list_elem_of_singleton. by left.
      * intros [->|H]%elem_of_cons.
        -- intros [->|Hc]%elem_of_cons; [by left|]. right. apply (IH h); [by left|done].
        -- intros Hc. right. apply (IH p); [by right|done].
Qed.

Lemma elem_of_split_inv sep s c : c ≠ sep → c ∈ s → ∃ p, p ∈ split sep s ∧ c ∈ p.
Proof.
  intros Hc. induction s as [|d s IH]; simpl; [by intros ?%elem_of_nil|].
  intros Hin. destruct (d =? sep) eqn:Hd.
  - apply N.eqb_eq in Hd as ->.
    apply elem_of_cons in Hin as [->|Hin]; [done|].
    destruct (IH Hin) as (p & Hp & Hcp). exists p. split; [by right|done].
  - destruct (split sep s) as [|h t] eqn:Hs; [by destruct (split_nonempty sep s)|].
    apply elem_of_cons in Hin as [->|Hin].
    + exists (d :: h). split; by left.
    + destruct (IH Hin) as (p & [->|Hp]%elem_of_cons & Hcp).
      * exists (d :: h). split; [by left|by right].
      * exists p. split; [by right|done].
Qed.

Lemma elem_of_items_of content x c : x ∈ items_of content → c ∈ x → c ∈ content.
Proof.
  unfold items_of. intros (p & -> & Hp)%list_elem_of_fmap Hc.
  eapply elem_of_split; [done|]. by apply elem_of_strip.
Qed.

Lemma items_of_trimmed content x : x ∈ items_of content → strip x = x.
Proof.
  unfold items_of. intros (p & -> & _)%list_elem_of_fmap. apply strip_idem.
Qed.

(** The bracket test and the slice, on a bracketed content. *)
Lemma endswith_snoc c s : endswith c (s ++ [c]) = true.
Proof. unfold endswith. rewrite last_snoc. apply N.eqb_refl. Qed.

Lemma slice_bracketed a inner b : slice_1_m1 (a :: inner ++ [b]) = inner.
Proof. unfold slice_1_m1. simpl. apply removelast_last. Qed.

Lemma unwrap_bracketed inner :
  (if startswith LBRACKET (LBRACKET :: inner ++ [RBRACKET])
      && endswith RBRACKET (LBRACKET :: inner ++ [RBRACKET])
   then slice_1_m1 (LBRACKET :: inner ++ [RBRACKET])
   else LBRACKET :: inner ++ [RBRACKET]) = inner.
Proof.
  change (LBRACKET :: inner ++ [RBRACKET]) with ((LBRACKET :: inner) ++ [RBRACKET]).
  rewrite endswith_snoc. apply slice_bracketed.
Qed.

Lemma bracket_free_spec s :
  bracket_free s = true ↔ (LBRACKET ∉ s) ∧ (RBRACKET ∉ s).
Proof.
  unfold bracket_free. rewrite negb_true_iff, orb_false_iff.
  rewrite <- !contains_elem_of, !not_true_iff_false. done.
Qed.

(** The stored pieces are free of brackets exactly when the split text is. *)
Lemma bracket_free_items_of content :
  forallb bracket_free (items_of content) = bracket_free content.
Proof.
  apply eq_true_iff_eq. rewrite forallb_forall, bracket_free_spec. split.
  - intros H. split; intros Hin.
    + destruct (elem_of_split_inv COMMA content LBRACKET) as (p & Hp & Hcp); [done..|].
      assert (bracket_free (strip p) = true) as [Hl _]%bracket_free_spec.
      { apply H, list_elem_of_In, list_elem_of_fmap. eauto. }
      apply Hl. by apply rstrip_keeps_visible, lstrip_keeps_visible.
    + destruct (elem_of_split_inv COMMA content RBRACKET) as (p & Hp & Hcp); [done..|].
      assert (bracket_free (strip p) = true) as [_ Hr]%bracket_free_spec.
      { apply H, list_elem_of_In, list_elem_of_fmap. eauto. }
      apply Hr. by apply rstrip_keeps_visible, lstrip_keeps_visible.
  - intros [Hl Hr] x Hx%list_elem_of_In. apply bracket_free_spec.
    split; intros Hc; [apply Hl|apply Hr]; by eapply elem_of_items_of.
Qed.

Lemma colon_visible : isspace COLON = false.
Proof. reflexivity. Qed.

End Strings.

(** ** Parsing *)

Lemma all_trimmed_empty : all_trimmed ∅.
Proof. apply map_Forall_empty. Qed.

Lemma Forall_items_of content : Forall (λ x, strip x = x) (items_of content).
Proof. apply Forall_forall. intros x Hx. by apply (items_of_trimmed content). Qed.

Lemma all_trimmed_insert sections k l :
  all_trimmed sections → Forall (λ x, strip x = x) l →
  all_trimmed (<[k:=l]> sections).
Proof. intros H Hl. by apply map_Forall_insert_2. Qed.

(** Closes the cases of a loop turn that leave the state as it is. *)
Ltac unchanged st :=
  exists st; simpl; repeat split; first [done | tauto | by intros []].

Lemma bt_parse_line_spec st line :
  current_known st →
  ∃ st', BookTrack.parse_line st line = Ok st'
         ∧ current_known st'
         ∧ (st'.1 = ∅ ↔ st.1 = ∅ ∧ contains COLON line = false)
         ∧ (all_trimmed st.1 → all_trimmed st'.1).
Proof.
  destruct st as [sections current_section]. intros Hknown.
  unfold BookTrack.parse_line.
  rewrite <- (contains_strip COLON line colon_visible).
  destruct (truthy (strip line)) eqn:Hline; simpl.
  2:{ destruct (strip line); [|done]. unchanged (sections, current_section). }
  destruct (contains COLON (strip line)) eqn:Hcolon.
  - destruct (split1_contains _ _ Hcolon) as (a & b & -> & _). simpl.
    eexists. split; [done|]. simpl. split; [|split].
    + intros cur [= <-]. simpl. rewrite lookup_insert_eq. eauto.
    + split; [by intros ?%insert_non_empty|by intros [_ ?]].
    + intros H. apply all_trimmed_insert; [done|apply Forall_items_of].
  - destruct current_section as [cur|];
      [|unchanged (sections, @None str)].
    destruct (truthy cur);
      [|unchanged (sections, Some cur)].
    destruct (truthy (strip (strip line)));
      [|unchanged (sections, Some cur)].
    destruct (Hknown cur eq_refl) as [l Hl]. simpl in Hl.
    unfold getitem. rewrite Hl. simpl.
    eexists. split; [done|]. simpl. split; [|split].
    + intros cur' [= <-]. simpl. rewrite lookup_insert_eq. eauto.
    + split; [by intros ?%insert_non_empty|].
      intros [-> _]. by rewrite lookup_empty in Hl.
    + intros H. apply all_trimmed_insert; [done|].
      apply Forall_app. split; [by apply (H cur)|apply Forall_items_of].
Qed.

Lemma bt_parse_lines_spec lines st :
  current_known st →
  ∃ st', BookTrack.parse_lines lines st = Ok st'
         ∧ (st'.1 = ∅ ↔ st.1 = ∅ ∧ existsb (contains COLON) lines = false)
         ∧ (all_trimmed st.1 → all_trimmed st'.1).
Proof.
  revert st. induction lines as [|line lines IH]; intros st Hknown; simpl.
  - unchanged st.
  - destruct (bt_parse_line_spec st line Hknown) as (st1 & -> & Hk1 & He1 & Ht1).
    simpl. destruct (IH st1 Hk1) as (st' & -> & He & Ht).
    exists st'. split; [done|]. split; [|auto].
    rewrite He, He1, orb_false_iff. tauto.
Qed.

Lemma start_known : current_known (∅, None).
Proof. by intros cur. Qed.

Lemma bs_parse_line_spec sections line :
  ∃ sections', BookSoundtrack.parse_line sections line = Ok sections'
         ∧ (sections' = ∅ ↔ sections = ∅ ∧ contains COLON line = false)
         ∧ (all_trimmed sections → all_trimmed sections').
Proof.
  unfold BookSoundtrack.parse_line.
  rewrite <- (contains_strip COLON line colon_visible).
  destruct (truthy (strip line)) eqn:Hline; simpl.
  2:{ destruct (strip line); [|done]. unchanged sections. }
  destruct (contains COLON (strip line)) eqn:Hcolon; simpl.
  - destruct (split1_contains _ _ Hcolon) as (a & b & -> & _). simpl.
    eexists. split; [done|]. split.
    + split; [by intros ?%insert_non_empty|by intros [_ ?]].
    + intros H. apply all_trimmed_insert; [done|apply Forall_items_of].
  - unchanged sections.
Qed.

Lemma bs_parse_lines_spec lines sections :
  ∃ sections', BookSoundtrack.parse_lines lines sections = Ok sections'
         ∧ (sections' = ∅ ↔ sections = ∅ ∧ existsb (contains COLON) lines = false)
         ∧ (all_trimmed sections → all_trimmed sections').
Proof.
  revert sections. induction lines as [|line lines IH]; intros sections; simpl.
  - unchanged sections.
  - destruct (bs_parse_line_spec sections line) as (s1 & -> & He1 & Ht1).
    simpl. destruct (IH s1) as (s' & -> & He & Ht).
    exists s'. split; [done|]. split; [|auto].
    rewrite He, He1, orb_false_iff. tauto.
Qed.

Lemma BookTrack_parse_total text :
  text ≠ [] →
  ∃ sections, BookTrack.parse_gemini_analysis text = Some sections
    ∧ (sections = ∅ ↔ has_colon_line text = false)
    ∧ all_trimmed sections.
Proof.
  intros Htext. unfold BookTrack.parse_gemini_analysis.
  destruct text as [|c text]; [done|]. simpl truthy. cbv iota beta. simpl negb.
  destruct (bt_parse_lines_spec (split NEWLINE (c :: text)) (∅, None)
              start_known) as ([sections cur] & -> & He & Ht).
  exists sections. split; [done|]. simpl in *. split.
  - rewrite He. unfold has_colon_line. tauto.
  - apply Ht, all_trimmed_empty.
Qed.

Lemma BookSoundtrack_parse_total text :
  text ≠ [] →
  ∃ sections, BookSoundtrack.parse_gemini_analysis text = Some sections
    ∧ (sections = ∅ ↔ has_colon_line text = false)
    ∧ all_trimmed sections.
Proof.
  intros Htext. unfold BookSoundtrack.parse_gemini_analysis.
  destruct text as [|c text]; [done|]. simpl truthy. cbv iota beta. simpl negb.
  destruct (bs_parse_lines_spec (split NEWLINE (c :: text)) ∅)
    as (sections & -> & He & Ht).
  exists sections. split; [done|]. split.
  - rewrite He. unfold has_colon_line. tauto.
  - apply Ht, all_trimmed_empty.
Qed.




(** C3, as stated, fails: on a text that is not empty and has no line with
    a colon, [parse_gemini_analysis] returns the empty dictionary, a result
    and not a failure, in both files; and [main], which reports the parse
    failure for that dictionary, reports an empty text as a failed
    analysis, before the parser is called. *)
Lemma parser_returns_empty_mapping :
  BookTrack.parse_gemini_analysis (lit "no labels here") = Some ∅
  ∧ BookSoundtrack.parse_gemini_analysis (lit "no labels here") = Some ∅
  ∧ (BookTrack.main true (lit "Emma") (lit "Austen") (Some some_keys)
       (λ _, Ok emma_response) (λ _, Some []) (Some changing_catalog)).1
    = Some (inl AnalysisFailed)
  ∧ (BookSoundtrack.main (lit "Emma") (lit "Austen") (λ s, s) (lit "k1")
       second_try (λ _, Ok (Some [])) (Some changing_catalog) false).1
    = Ok (inl AnalysisFailed).
Proof. repeat split; vm_compute; reflexivity. Qed.

(** C3, amended. [parse_gemini_analysis] returns [None] exactly on the empty
    text, and the empty dictionary exactly on a text that is not empty and
    has no line with a colon. The parse failure is what [main] reports for
    that dictionary: exactly when the inputs are given, the book is found
    and the generated text is not empty and has no line with a colon. The
    empty text does not reach the parser in [main], which reports it as a
    failed analysis. In both files. *)
Theorem parse_failure_is_reported_by_main (text : str) (submit_button : bool)
    (book_title book_author : str) (keys : option BookTrack.Keys)
    (get1 : str → Result HttpResponse)
    (analyze1 : BookTrack.BookInfo → option str)
    (quote : str → str) (api_key : str) (get : nat → str → Result HttpResponse)
    (analyze : BookSoundtrack.BookInfo → Result (option str))
    (sp : option Spotify) (create : bool) :
  (BookTrack.parse_gemini_analysis text = None ↔ text = [])
  ∧ (BookTrack.parse_gemini_analysis text = Some ∅
     ↔ text ≠ [] ∧ has_colon_line text = false)
  ∧ (BookSoundtrack.parse_gemini_analysis text = None ↔ text = [])
  ∧ (BookSoundtrack.parse_gemini_analysis text = Some ∅
     ↔ text ≠ [] ∧ has_colon_line text = false)
  ∧ ((BookTrack.main submit_button book_title book_author keys get1 analyze1
        sp).1 = Some (inl ParseFailed)
     ↔ submit_button = true ∧ book_title ≠ [] ∧ book_author ≠ []
       ∧ ∃ book_info analysis_text,
           BookTrack.get_book_info keys get1 book_title book_author
             = Some book_info
           ∧ analyze1 book_info = Some analysis_text
           ∧ analysis_text ≠ [] ∧ has_colon_line analysis_text = false)
  ∧ ((BookSoundtrack.main book_title book_author quote api_key get analyze sp
        create).1 = Ok (inl ParseFailed)
     ↔ book_title ≠ [] ∧ book_author ≠ []
       ∧ ∃ book_info analysis_text,
           (BookSoundtrack.get_book_info quote api_key get book_title
              book_author).1 = Some book_info
           ∧ analyze book_info = Ok (Some analysis_text)
           ∧ analysis_text ≠ [] ∧ has_colon_line analysis_text = false).
Proof.
  assert (∀ t, BookTrack.parse_gemini_analysis t = None ↔ t = []) as Hnone1.
  { intros t. destruct (decide (t = [])) as [->|Hne]; [done|].
    destruct (BookTrack_parse_total t Hne) as (sections & -> & _). done. }
  assert (∀ t, BookTrack.parse_gemini_analysis t = Some ∅
               ↔ t ≠ [] ∧ has_colon_line t = false) as Hempty1.
  { intros t. destruct (decide (t = [])) as [->|Hne]; [split; [done|by intros []]|].
    destruct (BookTrack_parse_total t Hne) as (sections & -> & He & _).
    rewrite <- He. split; [by intros [= ->]|by intros [_ ->]]. }
  assert (∀ t, BookSoundtrack.parse_gemini_analysis t = None ↔ t = []) as Hnone2.
  { intros t. destruct (decide (t = [])) as [->|Hne]; [done|].
    destruct (BookSoundtrack_parse_total t Hne) as (sections & -> & _). done. }
  assert (∀ t, BookSoundtrack.parse_gemini_analysis t = Some ∅
               ↔ t ≠ [] ∧ has_colon_line t = false) as Hempty2.
  { intros t. destruct (decide (t = [])) as [->|Hne]; [split; [done|by intros []]|].
    destruct (BookSoundtrack_parse_total t Hne) as (sections & -> & He & _).
    rewrite <- He. split; [by intros [= ->]|by intros [_ ->]]. }
  split; [apply Hnone1|]. split; [apply Hempty1|].
  split; [apply Hnone2|]. split; [apply Hempty2|]. split.
  - unfold BookTrack.main.
    destruct submit_button, book_title as [|c1 t1], book_author as [|c2 t2];
      simpl; try (split; [done|by intros (? & ? & ? & _)]).
    destruct (BookTrack.get_book_info keys get1 (c1 :: t1) (c2 :: t2))
      as [book_info|]; [|split; [done|by intros (_ & _ & _ & ? & ? & ? & _)]].
    destruct (analyze1 book_info) as [[|c text']|] eqn:Htext;
      try (split; [done|];
           intros (_ & _ & _ & ? & ? & [= <-] & Han & ? & _);
           rewrite Htext in Han; by simplify_eq).
    destruct (BookTrack_parse_total (c :: text') ltac:(done))
      as (sections & Hparse & He & _).
    rewrite Hparse. simpl. case_bool_decide as Hs.
    + split; [intros _|done]. repeat split; try done.
      exists book_info, (c :: text'). repeat split; try done. by apply He.
    + split.
      * destruct sp as [sp|]; [|done].
        by destruct (BookTrack.search_spotify_tracks _ _ _) as [[|? ?] ?].
      * intros (_ & _ & _ & ? & ? & [= <-] & Han & _ & Hc).
        rewrite Htext in Han. injection Han as <-. by apply He in Hc.
  - unfold BookSoundtrack.main.
    destruct book_title as [|c1 t1], book_author as [|c2 t2];
      simpl; try (split; [done|by intros (? & ? & _)]).
    destruct (BookSoundtrack.get_book_info quote api_key get (c1 :: t1)
                (c2 :: t2)).1
      as [book_info|]; [|split; [done|by intros (_ & _ & ? & ? & ? & _)]].
    destruct (analyze book_info) as [[[|c text']|]|e] eqn:Htext;
      try (split; [done|];
           intros (_ & _ & ? & ? & [= <-] & Han & ? & _);
           rewrite Htext in Han; by simplify_eq).
    destruct (BookSoundtrack_parse_total (c :: text') ltac:(done))
      as (sections & Hparse & He & _).
    rewrite Hparse. simpl. case_bool_decide as Hs.
    + split; [intros _|done]. repeat split; try done.
      exists book_info, (c :: text'). repeat split; try done. by apply He.
    + split.
      * destruct sp as [sp|]; [|done].
        destruct (BookSoundtrack.search_spotify_tracks _ _ _) as [[|? ?] ?];
          [done|]. destruct create; [|done].
        by destruct (BookSoundtrack.create_spotify_playlist _ _ _ _).
      * intros (_ & _ & ? & ? & [= <-] & Han & _ & Hc).
        rewrite Htext in Han. injection Han as <-. by apply He in Hc.
Qed.

(** C6, as stated, fails: one bracket pair is stripped, and brackets inside
    it, or an unmatched one, are stored. *)
Lemma nested_brackets_are_stored :
  BookTrack.parse_gemini_analysis (lit "Genres: [[rock], pop]")
    = Some {[ GENRES := [lit "[rock]"; lit "pop"] ]}
  ∧ BookSoundtrack.parse_gemini_analysis (lit "Genres: [[rock], pop]")
    = Some {[ GENRES := [lit "[rock]"; lit "pop"] ]}
  ∧ BookTrack.parse_gemini_analysis (lit "Genres: [rock, pop")
    = Some {[ GENRES := [lit "[rock"; lit "pop"] ]}
  ∧ BookSoundtrack.parse_gemini_analysis (lit "Genres: [rock, pop")
    = Some {[ GENRES := [lit "[rock"; lit "pop"] ]}.
Proof. repeat split; vm_compute; reflexivity. Qed.

(** C6, amended. On a line with a colon whose content is wrapped in a pair
    of square brackets, exactly the first and the last bracket are removed
    before the split, in both files; the stored pieces are free of brackets
    exactly when the text between the pair is. *)
Theorem bracket_pair_stripped_once (line name rest inner : str) :
  strip line = name ++ COLON :: rest →
  contains COLON name = false →
  strip rest = LBRACKET :: inner ++ [RBRACKET] →
  (∀ sections current_section,
     BookTrack.parse_line (sections, current_section) line
     = Ok (<[strip name := items_of inner]> sections, Some (strip name)))
  ∧ (∀ sections,
     BookSoundtrack.parse_line sections line
     = Ok (<[strip name := items_of inner]> sections))
  ∧ forallb bracket_free (items_of inner) = bracket_free inner.
Proof.
  intros Hline Hname Hrest.
  assert (truthy (strip line) = true) as Htruthy.
  { rewrite Hline. by destruct name. }
  assert (contains COLON (strip line) = true) as Hcolon.
  { rewrite Hline. apply contains_elem_of, elem_of_app. right. by left. }
  split; [|split; [|apply bracket_free_items_of]].
  - intros sections current_section. unfold BookTrack.parse_line.
    rewrite Htruthy, Hcolon, Hline, (split1_first _ _ _ Hname). simpl.
    by rewrite Hrest, unwrap_bracketed.
  - intros sections. unfold BookSoundtrack.parse_line.
    rewrite Htruthy, Hcolon, Hline, (split1_first _ _ _ Hname). simpl.
    by rewrite Hrest, unwrap_bracketed.
Qed.

Lemma bracket_pair_stripped_once_witness :
  BookSoundtrack.parse_line ∅ (lit "  Genres: [rock, pop]")
  = Ok {[ GENRES := [lit "rock"; lit "pop"] ]}.
Proof.
  refine (eq_trans
    (proj1 (proj2 (bracket_pair_stripped_once (lit "  Genres: [rock, pop]")
       (lit "Genres") (lit " [rock, pop]") (lit "rock, pop") _ _ _)) ∅) _);
    vm_compute; reflexivity.
Defined.

(** ** Ranking *)

Section Ranking.
Context {A : Type} (key : A → Z).
Implicit Types (x : A) (l tracks : list A).

Lemma insert_desc_perm x l : insert_desc key x l ≡ₚ x :: l.
Proof.
  induction l as [|y l IH]; simpl; [done|].
  destruct (key x <? key y)%Z; [|done].
  rewrite IH. apply Permutation_swap.
Qed.

Lemma sort_desc_perm l : sort_desc key l ≡ₚ l.
Proof.
  induction l as [|x l IH]; simpl; [done|].
  by rewrite insert_desc_perm, IH.
Qed.

Lemma insert_desc_descending x l :
  descending key l → descending key (insert_desc key x l).
Proof.
  unfold descending. induction 1 as [|y l Hl IH Hy]; simpl.
  - by repeat constructor.
  - destruct (key x <? key y)%Z eqn:Hxy.
    + apply Z.ltb_lt in Hxy. constructor; [done|].
      rewrite insert_desc_perm. constructor; [lia|done].
    + apply Z.ltb_ge in Hxy. constructor; [by constructor|].
      constructor; [done|]. eapply Forall_impl; [exact Hy|].
      simpl. intros. lia.
Qed.

Lemma sort_desc_descending l : descending key (sort_desc key l).
Proof.
  induction l as [|x l IH]; simpl; [constructor|].
  by apply insert_desc_descending.
Qed.



Lemma rank_nonneg tracks max_tracks :
  (0 ≤ max_tracks)%Z →
  rank key tracks max_tracks = firstn (Z.to_nat max_tracks) (sort_desc key tracks).
Proof.
  intros H. unfold rank, slice_to.
  destruct (max_tracks <? 0)%Z eqn:Hneg; [|done].
  apply Z.ltb_lt in Hneg. lia.
Qed.

Lemma rank_length tracks max_tracks :
  (0 ≤ max_tracks)%Z → (Z.of_nat (length (rank key tracks max_tracks)) ≤ max_tracks)%Z.
Proof.
  intros H. rewrite rank_nonneg by done. rewrite length_firstn. lia.
Qed.

Lemma slice_to_sublist (k : Z) l : sublist (slice_to k l) l.
Proof.
  unfold slice_to. destruct (k <? 0)%Z; apply sublist_take.
Qed.

End Ranking.

Lemma rank_sublist_perm {A} (key : A → Z) tracks max_tracks :
  ∃ sorted, sorted ≡ₚ tracks ∧ sublist (rank key tracks max_tracks) sorted.
Proof.
  exists (sort_desc key tracks). split; [apply sort_desc_perm|].
  apply slice_to_sublist.
Qed.




(** ** Track matching: the queries *)

(** The limit is the floor of the weighted count, for a count that is not
    negative. *)
Lemma weighted_floor (max_tracks w : Z) :
  (0 ≤ max_tracks)%Z → (0 ≤ w)%Z →
  weighted max_tracks w = (max_tracks * w / 100)%Z.
Proof. intros. unfold weighted. apply Z.quot_div_nonneg; lia. Qed.

(** X15. In [BookTrack.py] the combined queries pair the first two tones
    with the first two genres, and there are none when a category is
    absent. *)
Lemma BookTrack_combination_queries_first_two (analysis : Profile)
    (max_tracks : Z) (q : Query) :
  q ∈ BookTrack.combination_queries analysis max_tracks
  ↔ ∃ tones genres i j tone genre,
      analysis !! EMOTIONAL_TONES = Some tones ∧ analysis !! GENRES = Some genres
      ∧ (i < 2)%nat ∧ (j < 2)%nat
      ∧ tones !! i = Some tone ∧ genres !! j = Some genre
      ∧ q = {| terms := tone ++ [SPACE] ++ genre;
               limit := weighted max_tracks weight_emotional_tones |}.
Proof.
  unfold BookTrack.combination_queries.
  destruct (analysis !! EMOTIONAL_TONES) as [tones|],
           (analysis !! GENRES) as [genres|];
    try (split; [by intros ?%elem_of_nil|by intros (?&?&?&?&?&?&?&?&?)]).
  rewrite list_elem_of_In, in_flat_map. split.
  - intros (tone & Htone%list_elem_of_In & Hq%list_elem_of_In).
    apply list_elem_of_fmap in Hq as (genre & -> & Hgenre).
    apply list_elem_of_lookup in Htone as [i Hi], Hgenre as [j Hj].
    apply lookup_take_Some in Hi as [Hi ?], Hj as [Hj ?].
    exists tones, genres, i, j, tone, genre. done.
  - intros (? & ? & i & j & tone & genre & [= <-] & [= <-] & Hi & Hj & Ht & Hg & ->).
    exists tone. rewrite <- !list_elem_of_In. split.
    + apply list_elem_of_lookup. exists i. by apply lookup_take_Some.
    + apply list_elem_of_fmap. exists genre. split; [done|].
      apply list_elem_of_lookup. exists j. by apply lookup_take_Some.
Qed.

(** C4, on [book_soundtrack.py]: every tone is combined, not the first two
    only; [BookTrack.py] stops at two. *)
Theorem book_soundtrack_combines_every_tone :
  map terms (BookSoundtrack.combination_queries three_tones 15)
    = [lit "joy rock"; lit "awe rock"; lit "fear rock"]
  ∧ map terms (BookTrack.combination_queries three_tones 15)
    = [lit "joy rock"; lit "awe rock"].
Proof. split; vm_compute; reflexivity. Qed.

(** C10. Without a client, or with a profile that is [None] or has no
    category, the matching returns the empty list and has issued no call;
    the driver's test on the result is what names the outcome. *)
Theorem missing_client_or_empty_profile_returns_empty
    (sp : option Spotify) (analysis : option Profile) (max_tracks : Z) :
  BookTrack.search_spotify_tracks None analysis max_tracks = ([], [])
  ∧ BookTrack.search_spotify_tracks sp None max_tracks = ([], [])
  ∧ BookTrack.search_spotify_tracks sp (Some ∅) max_tracks = ([], [])
  ∧ BookSoundtrack.search_spotify_tracks None analysis max_tracks = ([], [])
  ∧ BookSoundtrack.search_spotify_tracks sp None max_tracks = ([], [])
  ∧ BookSoundtrack.search_spotify_tracks sp (Some ∅) max_tracks = ([], [])
  ∧ classified (BookTrack.search_spotify_tracks sp (Some ∅) max_tracks).1
    = inl NoTracksFound
  ∧ classified (BookSoundtrack.search_spotify_tracks sp (Some ∅) max_tracks).1
    = inl NoTracksFound.
Proof.
  unfold BookTrack.search_spotify_tracks, BookSoundtrack.search_spotify_tracks.
  destruct sp; repeat split; done.
Qed.

(** ** Track matching: the normalization of an item *)

(** The album image of [BookTrack.py], for an item with an artist: empty
    without images, the second image when there is one, and an exception
    on a list of exactly one image. *)
Lemma BookTrack_album_image (item : Item) :
  item_artists item ≠ [] →
  BookTrack.album_image <$> BookTrack.track_of_item item
  = match album_images (item_album item) with
    | [] => Ok []
    | [_] => Raise IndexError
    | _ :: second :: _ => Ok (image_url second)
    end.
Proof.
  intros Hartists. unfold BookTrack.track_of_item.
  destruct (item_artists item) as [|first_artist others]; [done|].
  by destruct (album_images (item_album item)) as [|first [|second images]].
Qed.

(** The preview URL of [BookTrack.py] is the value of the key, and the
    empty string when the key is missing. *)
Lemma BookTrack_preview_url (item : Item) (track : BookTrack.Track) :
  BookTrack.track_of_item item = Ok track →
  BookTrack.preview_url track
  = match item_preview_url item with
    | Some value => value
    | None => Some []
    end.
Proof.
  unfold BookTrack.track_of_item. intros H.
  destruct (match album_images (item_album item) with [] => _ | _ => _ end);
    [|done].
  destruct (index (item_artists item) 0); [|done].
  simpl in H. by injection H as <-.
Qed.

(** The normalization of [book_soundtrack.py] reads no image and no
    preview URL; it raises exactly when the item lists no artist. *)
Lemma BookSoundtrack_track_of_item_raises (item : Item) :
  raises (BookSoundtrack.track_of_item item) = true ↔ item_artists item = [].
Proof.
  unfold BookSoundtrack.track_of_item.
  by destruct (item_artists item).
Qed.

(** C7, on [BookTrack.py]: an album with exactly one image makes the
    normalization raise; the handler of the query then drops this item and
    the ones after it. *)
Theorem single_image_album_raises :
  BookTrack.track_of_item item_one_image = Raise IndexError
  ∧ map BookTrack.id
      (BookTrack.search_spotify_tracks (Some one_image_catalog) (Some only_sea) 15).1
    = [lit "T1"].
Proof. split; vm_compute; reflexivity. Qed.

(** ** Track matching: the loops against their restatement *)

Lemma merge_app {Track} (listed : Track → list Track → bool) tracks new1 new2 :
  merge listed tracks (new1 ++ new2) = merge listed (merge listed tracks new1) new2.
Proof. apply fold_left_app. Qed.

Lemma BookTrack_add_items_spec items tracks :
  (BookTrack.add_items items tracks).1
    = merge listed_by_id tracks (normalised_prefix BookTrack.track_of_item items)
  ∧ (is_Some (BookTrack.add_items items tracks).2
     ↔ existsb (λ item, raises (BookTrack.track_of_item item)) items = true).
Proof.
  revert tracks. induction items as [|item items IH]; intros tracks; simpl.
  - split; [done|]. split; [by intros []|done].
  - destruct (BookTrack.track_of_item item) as [track|e]; simpl.
    + apply IH.
    + split; [done|]. split; eauto.
Qed.

Lemma BookSoundtrack_add_items_spec items tracks :
  (BookSoundtrack.add_items items tracks).1
    = merge listed_whole tracks (normalised_prefix BookSoundtrack.track_of_item items)
  ∧ (is_Some (BookSoundtrack.add_items items tracks).2
     ↔ existsb (λ item, raises (BookSoundtrack.track_of_item item)) items = true).
Proof.
  revert tracks. induction items as [|item items IH]; intros tracks; simpl.
  - split; [done|]. split; [by intros []|done].
  - destruct (BookSoundtrack.track_of_item item) as [track|e]; simpl.
    + apply IH.
    + split; [done|]. split; eauto.
Qed.

Lemma trace_cons failed q qs r rs :
  trace failed (q :: qs) (r :: rs)
  = (Searched q :: if failed r then [Warned (terms q)] else []) ++ trace failed qs rs.
Proof. reflexivity. Qed.

Lemma BookTrack_run_queries_spec sp queries n tracks log :
  BookTrack.run_queries sp n queries tracks log
  = (merge listed_by_id tracks
       (concat (map (contribution BookTrack.track_of_item) (responses sp n queries))),
     log ++ trace (query_failed BookTrack.track_of_item) queries (responses sp n queries)).
Proof.
  revert n tracks log.
  induction queries as [|query queries IH]; intros n tracks log; simpl.
  - unfold trace. simpl. by rewrite app_nil_r.
  - rewrite trace_cons, merge_app.
    destruct (search sp n query) as [items|e]; simpl.
    + destruct (BookTrack_add_items_spec items tracks) as [Htracks Herr].
      destruct (BookTrack.add_items items tracks) as [tracks' [e|]];
        simpl in *; rewrite IH, Htracks.
      * destruct Herr as [-> _]; [|by eexists]. by rewrite <- (app_assoc log).
      * destruct (existsb _ items); [by destruct Herr as [_ []]|].
        by rewrite <- (app_assoc log).
    + rewrite IH. by rewrite <- (app_assoc log).
Qed.

Lemma BookSoundtrack_run_queries_spec sp queries n tracks log :
  BookSoundtrack.run_queries sp n queries tracks log
  = (merge listed_whole tracks
       (concat (map (contribution BookSoundtrack.track_of_item) (responses sp n queries))),
     log ++ trace (query_failed BookSoundtrack.track_of_item) queries (responses sp n queries)).
Proof.
  revert n tracks log.
  induction queries as [|query queries IH]; intros n tracks log; simpl.
  - unfold trace. simpl. by rewrite app_nil_r.
  - rewrite trace_cons, merge_app.
    destruct (search sp n query) as [items|e]; simpl.
    + destruct (BookSoundtrack_add_items_spec items tracks) as [Htracks Herr].
      destruct (BookSoundtrack.add_items items tracks) as [tracks' [e|]];
        simpl in *; rewrite IH, Htracks.
      * destruct Herr as [-> _]; [|by eexists]. by rewrite <- (app_assoc log).
      * destruct (existsb _ items); [by destruct Herr as [_ []]|].
        by rewrite <- (app_assoc log).
    + rewrite IH. by rewrite <- (app_assoc log).
Qed.

Lemma searches_trace failed sp queries n :
  searches (trace failed queries (responses sp n queries)) = queries.
Proof.
  revert n. induction queries as [|q queries IH]; intros n; [done|].
  simpl responses. rewrite trace_cons. unfold searches in *.
  rewrite omap_app, IH. simpl. by destruct (failed _).
Qed.

Lemma warnings_trace failed sp queries n :
  warnings (trace failed queries (responses sp n queries))
  = map terms (failing failed queries (responses sp n queries)).
Proof.
  revert n. induction queries as [|q queries IH]; intros n; [done|].
  simpl responses. rewrite trace_cons. unfold warnings, failing in *.
  rewrite omap_app, IH. simpl. by destruct (failed _).
Qed.

(** C8, as stated, fails: a query that fails at its second item has
    already added its first one, and that track is in the result. A reading
    where the failing query adds nothing gives the empty list. *)
Lemma failing_query_keeps_earlier_items :
  BookTrack.search_spotify_tracks (Some one_image_catalog) (Some only_sea) 15
    = ([full_T1], [Searched query_sea; Warned (lit "sea")])
  ∧ rank BookTrack.popularity
      (merge listed_by_id []
         (concat (map (contribution_if_successful BookTrack.track_of_item)
                    (responses one_image_catalog 0
                       (BookTrack.search_queries only_sea 15))))) 15
    = [].
Proof. split; vm_compute; reflexivity. Qed.

(** C8, amended. In both files, whatever the queries answer: every query
    is searched, in order; each failing query leaves one warning; and the
    result is the ranking of the merge of the contributions, where a query
    whose search raises contributes nothing and a query that fails at one
    of its items contributes the tracks of the items before that one. *)
Theorem query_failures_recovered_locally (sp : Spotify) (profile : Profile)
    (max_tracks : Z) :
  falsy (Some profile) = false →
  (let queries := BookTrack.search_queries profile max_tracks in
   let rs := responses sp 0 queries in
   let result := BookTrack.search_spotify_tracks (Some sp) (Some profile) max_tracks in
   result.1 = rank BookTrack.popularity
                (merge listed_by_id []
                   (concat (map (contribution BookTrack.track_of_item) rs)))
                max_tracks
   ∧ searches result.2 = queries
   ∧ warnings result.2
     = map terms (failing (query_failed BookTrack.track_of_item) queries rs))
  ∧
  (let queries := BookSoundtrack.search_queries profile max_tracks in
   let rs := responses sp 0 queries in
   let result :=
     BookSoundtrack.search_spotify_tracks (Some sp) (Some profile) max_tracks in
   result.1 = rank BookSoundtrack.popularity
                (merge listed_whole []
                   (concat (map (contribution BookSoundtrack.track_of_item) rs)))
                max_tracks
   ∧ searches result.2 = queries
   ∧ warnings result.2
     = map terms (failing (query_failed BookSoundtrack.track_of_item) queries rs)).
Proof.
  intros Hprofile. split; cbv zeta.
  - unfold BookTrack.search_spotify_tracks. rewrite Hprofile.
    rewrite BookTrack_run_queries_spec. simpl.
    by rewrite searches_trace, warnings_trace.
  - unfold BookSoundtrack.search_spotify_tracks. rewrite Hprofile.
    rewrite BookSoundtrack_run_queries_spec. simpl.
    by rewrite searches_trace, warnings_trace.
Qed.

Lemma query_failures_recovered_locally_witness :
  falsy (Some only_sea) = false
  ∧ searches (BookTrack.search_spotify_tracks (Some one_image_catalog)
                (Some only_sea) 15).2
    = BookTrack.search_queries only_sea 15.
Proof.
  assert (falsy (Some only_sea) = false) as H by (vm_compute; reflexivity).
  split; [exact H|].
  exact (proj1 (proj2 (proj1
    (query_failures_recovered_locally one_image_catalog only_sea 15 H)))).
Defined.

(** ** Track matching: one track per id *)

Lemma already_listed_spec track tracks :
  BookTrack.already_listed track tracks = true
  ↔ BookTrack.id track ∈ map BookTrack.id tracks.
Proof.
  unfold BookTrack.already_listed. rewrite existsb_exists, list_elem_of_fmap.
  split.
  - intros (t & Ht%list_elem_of_In & Hid%bool_decide_eq_true). eauto.
  - intros (t & Hid & Ht). exists t. rewrite <- list_elem_of_In.
    split; [done|]. by apply bool_decide_eq_true.
Qed.

Lemma merge_by_id_NoDup new tracks :
  NoDup (map BookTrack.id tracks) →
  NoDup (map BookTrack.id (merge listed_by_id tracks new)).
Proof.
  revert tracks. induction new as [|t new IH]; intros tracks Hnd; simpl; [done|].
  apply IH. unfold listed_by_id.
  destruct (BookTrack.already_listed t tracks) eqn:Hl; [done|].
  rewrite map_app. simpl. apply NoDup_app. split; [done|]. split.
  - intros x Hx ->%list_elem_of_singleton.
    apply already_listed_spec in Hx. congruence.
  - apply NoDup_singleton.
Qed.

(** A merged track is the first of its id among the new tracks, unless the
    id was listed before. *)
Lemma merge_by_id_first new tracks t :
  t ∈ merge listed_by_id tracks new →
  t ∈ tracks
  ∨ ∃ before after, new = before ++ t :: after
      ∧ (BookTrack.id t ∉ map BookTrack.id before)
      ∧ (BookTrack.id t ∉ map BookTrack.id tracks).
Proof.
  revert tracks. induction new as [|u new IH]; intros tracks; simpl; [by left|].
  unfold listed_by_id at 2.
  destruct (BookTrack.already_listed u tracks) eqn:Hl; intros Hin.
  - destruct (IH _ Hin) as [?|(before & after & -> & Hb & Ht)]; [by left|].
    right. exists (u :: before), after. split; [done|]. split; [|done].
    simpl. apply not_elem_of_cons. split; [|done].
    intros Heq. apply Ht. rewrite Heq. by apply already_listed_spec.
  - destruct (IH _ Hin) as [Hold|(before & after & -> & Hb & Ht)].
    + apply elem_of_app in Hold as [?|Hu]; [by left|].
      apply list_elem_of_singleton in Hu as ->.
      right. exists [], new. split; [done|]. split; [apply not_elem_of_nil|].
      intros Hid%already_listed_spec. congruence.
    + rewrite map_app in Ht. simpl in Ht.
      apply not_elem_of_app in Ht as [Ht Hu].
      right. exists (u :: before), after. split; [done|]. split; [|done].
      simpl. apply not_elem_of_cons. split; [|done].
      intros Heq. apply Hu. rewrite Heq. by left.
Qed.

(** X13. In [BookTrack.py] the returned list has one track per id,
    whatever the client, the profile and the answers. *)
Lemma BookTrack_one_track_per_id (sp : option Spotify) (analysis : option Profile)
    (max_tracks : Z) :
  NoDup (map BookTrack.id
           (BookTrack.search_spotify_tracks sp analysis max_tracks).1).
Proof.
  unfold BookTrack.search_spotify_tracks.
  destruct sp as [sp|], analysis as [profile|]; simpl; try apply NoDup_nil_2.
  case_bool_decide; simpl; [apply NoDup_nil_2|].
  rewrite BookTrack_run_queries_spec.
  destruct (rank_sublist_perm BookTrack.popularity
    (merge listed_by_id [] (concat (map (contribution BookTrack.track_of_item)
       (responses sp 0 (BookTrack.search_queries profile max_tracks)))))
    max_tracks) as (sorted & Hperm & Hsub).
  eapply sublist_NoDup; [|apply fmap_sublist, Hsub].
  change (NoDup (BookTrack.id <$> sorted)). rewrite Hperm.
  apply merge_by_id_NoDup, NoDup_nil_2.
Qed.

(** X14. In [BookTrack.py] a returned track is the first one met with its
    id among the contributions of the queries, in query order: no track
    contributed before it has its id. *)
Lemma BookTrack_first_met_is_kept (sp : Spotify) (profile : Profile)
    (max_tracks : Z) (t : BookTrack.Track) :
  t ∈ (BookTrack.search_spotify_tracks (Some sp) (Some profile) max_tracks).1 →
  ∃ before after,
    concat (map (contribution BookTrack.track_of_item)
              (responses sp 0 (BookTrack.search_queries profile max_tracks)))
    = before ++ t :: after
    ∧ (BookTrack.id t ∉ map BookTrack.id before).
Proof.
  unfold BookTrack.search_spotify_tracks. simpl.
  case_bool_decide; simpl; [by intros ?%elem_of_nil|].
  rewrite BookTrack_run_queries_spec. intros Hin.
  destruct (rank_sublist_perm BookTrack.popularity
    (merge listed_by_id [] (concat (map (contribution BookTrack.track_of_item)
       (responses sp 0 (BookTrack.search_queries profile max_tracks)))))
    max_tracks) as (sorted & Hperm & Hsub).
  eapply elem_of_sublist in Hin; [|exact Hsub]. rewrite Hperm in Hin.
  apply merge_by_id_first in Hin as [?%elem_of_nil|(before & after & ? & ? & _)];
    [done|eauto].
Qed.

(** C1, on [book_soundtrack.py]: the membership test compares whole
    tracks, so two answers carrying T1 with different popularity leave two
    entries for T1; [BookTrack.py] keeps the first only. *)
Theorem book_soundtrack_keeps_same_id_twice :
  BookSoundtrack.search_spotify_tracks (Some changing_catalog) (Some rock_sea) 15
    = ([plain (lit "T1") 60; plain (lit "T1") 50],
       [Searched query_rock; Searched query_sea])
  ∧ map BookTrack.popularity
      (BookTrack.search_spotify_tracks (Some changing_catalog) (Some rock_sea) 15).1
    = [50%Z].
Proof. split; vm_compute; reflexivity. Qed.

(** ** Playlist creation *)

Lemma add_batches_head sp bs n playlist e log :
  head (BookSoundtrack.add_batches sp n playlist bs (e :: log)).2 = Some e.
Proof.
  revert n log. induction bs as [|batch bs IH]; intros n log; simpl; [done|].
  destruct (playlist_add_items sp n playlist batch); [apply IH|done].
Qed.

(** C9, as stated, fails: the name starts with the books emoji and a
    space. *)
Lemma playlist_name_has_prefix :
  BookSoundtrack.playlist_name emma ≠ lit "Emma - Literary Soundtrack"
  ∧ BookSoundtrack.create_spotify_playlist (Some account) emma
      [plain (lit "T1") 50] rock_sea
    = (Some (lit "https://open/P1"),
       [ CreatedPlaylist (lit "reader")
           (BOOKS :: SPACE :: lit "Emma - Literary Soundtrack") true
           (lit "A curated soundtrack for Emma by Jane Austen. Genres: rock");
         AddedItems (lit "P1") [lit "spotify:track:T1"] ]).
Proof. split; [by vm_compute|vm_compute; reflexivity]. Qed.

(** C9, amended. With a client, at least one track and a current user,
    the first call of the playlist creation creates a public playlist
    named with the books emoji, a space, the book's title as it is, and
    " - Literary Soundtrack". *)
Theorem playlist_created_with_prefixed_name (sp : Spotify)
    (book_info : BookSoundtrack.BookInfo) (tracks : list BookSoundtrack.Track)
    (analysis : Profile) (user_id : str) :
  tracks ≠ [] →
  current_user sp = Ok user_id →
  head (BookSoundtrack.create_spotify_playlist (Some sp) book_info tracks analysis).2
  = Some (CreatedPlaylist user_id
            ([BOOKS; SPACE] ++ BookSoundtrack.title book_info
               ++ lit " - Literary Soundtrack")
            true
            (firstn 300 (BookSoundtrack.playlist_description book_info analysis))).
Proof.
  intros Htracks Huser. unfold BookSoundtrack.create_spotify_playlist.
  destruct tracks as [|track tracks]; [done|]. rewrite Huser.
  destruct (user_playlist_create sp _ _ _ _) as [playlist|e]; [|done].
  pose proof (add_batches_head sp
    (BookSoundtrack.batches (length (map BookSoundtrack.uri (track :: tracks))) 50
       (map BookSoundtrack.uri (track :: tracks)))
    0 (playlist_id playlist)
    (CreatedPlaylist user_id (BookSoundtrack.playlist_name book_info) true
       (firstn 300 (BookSoundtrack.playlist_description book_info analysis)))
    []) as Hhead.
  destruct (BookSoundtrack.add_batches _ _ _ _ _) as [[|] log]; exact Hhead.
Qed.

Lemma playlist_created_with_prefixed_name_witness :
  head (BookSoundtrack.create_spotify_playlist (Some account) emma
          [plain (lit "T1") 50] rock_sea).2
  = Some (CreatedPlaylist (lit "reader")
            ([BOOKS; SPACE] ++ lit "Emma" ++ lit " - Literary Soundtrack")
            true
            (firstn 300 (BookSoundtrack.playlist_description emma rock_sea))).
Proof.
  apply (playlist_created_with_prefixed_name account emma
           [plain (lit "T1") 50] rock_sea (lit "reader")).
  - discriminate.
  - reflexivity.
Defined.

(** * Further properties *)

(** ** Strings: lengths, splits and joins *)

Lemma split1_contains_first sep (s : str) :
  contains sep s = true →
  ∃ a b, split1 sep s = [a; b] ∧ s = a ++ sep :: b ∧ contains sep a = false.
Proof.
  induction s as [|c s IH]; simpl; [done|].
  rewrite (N.eqb_sym sep c).
  destruct (c =? sep) eqn:Hc; simpl.
  - apply N.eqb_eq in Hc as ->. intros _. by exists [], s.
  - intros (a & b & -> & -> & Ha)%IH. exists (c :: a), b.
    simpl. by rewrite (N.eqb_sym sep c), Hc.
Qed.

Lemma not_contains sep (s : str) : contains sep s = false ↔ sep ∉ s.
Proof. rewrite <- contains_elem_of. by destruct (contains sep s). Qed.

(** No piece of a split holds the separator. *)
Lemma split_sep_free sep (s p : str) : p ∈ split sep s → sep ∉ p.
Proof.
  revert p. induction s as [|d s IH]; simpl; intros p.
  - intros ->%list_elem_of_singleton. apply not_elem_of_nil.
  - destruct (d =? sep) eqn:Hd.
    + intros [->|H]%elem_of_cons; [apply not_elem_of_nil|auto].
    + apply N.eqb_neq in Hd.
      destruct (split sep s) as [|h t] eqn:Hs.
      * intros ->%list_elem_of_singleton.
        intros ->%list_elem_of_singleton. done.
      * intros [->|H]%elem_of_cons.
        -- apply not_elem_of_cons. split; [done|]. apply IH. by left.
        -- apply IH. by right.
Qed.

Lemma split_whole sep (s : str) : sep ∉ s → split sep s = [s].
Proof.
  induction s as [|c s IH]; simpl; [done|].
  intros [Hc Hs]%not_elem_of_cons.
  destruct (c =? sep) eqn:Heq; [apply N.eqb_eq in Heq; congruence|].
  by rewrite IH.
Qed.

Lemma split_app_sep sep (a b : str) :
  sep ∉ a → split sep (a ++ sep :: b) = a :: split sep b.
Proof.
  induction a as [|c a IH]; simpl.
  - by rewrite N.eqb_refl.
  - intros [Hc Ha]%not_elem_of_cons.
    destruct (c =? sep) eqn:Heq; [apply N.eqb_eq in Heq; congruence|].
    by rewrite IH.
Qed.

(** Joining pieces that do not hold the separator, then splitting, gives
    the pieces back. *)
Lemma split_join sep (l : list str) :
  l ≠ [] → Forall (λ p, sep ∉ p) l → split sep (join [sep] l) = l.
Proof.
  induction l as [|x l IH]; [done|]. intros _ Hall.
  apply Forall_cons in Hall as [Hx Hl].
  destruct l as [|y l]; simpl.
  - by apply split_whole.
  - rewrite split_app_sep by done. f_equal. by apply IH.
Qed.

Lemma lstrip_spaces (pre s : str) :
  Forall (λ c, isspace c = true) pre → lstrip (pre ++ s) = lstrip s.
Proof.
  induction 1 as [|c pre Hc _ IH]; simpl; [done|]. by rewrite Hc.
Qed.

(** What [", ".join] builds, split at the commas and stripped, is the list
    joined, for terms that are trimmed and hold no comma. *)
Lemma join_cons2 sep (x y : str) (l : list str) :
  join sep (x :: y :: l) = x ++ sep ++ join sep (y :: l).
Proof. reflexivity. Qed.

Lemma items_of_join_spaced (pre : str) (items : list str) :
  Forall (λ c, isspace c = true) pre →
  COMMA ∉ pre →
  items ≠ [] →
  Forall (λ x, strip x = x ∧ COMMA ∉ x) items →
  items_of (pre ++ join (lit ", ") items) = items.
Proof.
  intros Hpre Hcomma Hne Hall. revert pre Hpre Hcomma.
  induction items as [|x items IH]; [done|]. intros pre Hpre Hcomma.
  apply Forall_cons in Hall as [[Hx Hxc] Hitems].
  assert (strip (pre ++ x) = x) as Hstrip.
  { unfold strip. rewrite lstrip_spaces by done. exact Hx. }
  destruct items as [|y items].
  - unfold items_of. simpl join.
    rewrite split_whole by (by rewrite not_elem_of_app).
    simpl. by rewrite Hstrip.
  - rewrite join_cons2. unfold items_of.
    replace (pre ++ x ++ lit ", " ++ join (lit ", ") (y :: items))
      with ((pre ++ x) ++ COMMA :: ([SPACE] ++ join (lit ", ") (y :: items)))
      by (by rewrite <- app_assoc).
    rewrite split_app_sep by (by rewrite not_elem_of_app).
    rewrite map_cons, Hstrip. f_equal.
    apply (IH ltac:(done) Hitems [SPACE]).
    + by repeat constructor.
    + by intros [=]%list_elem_of_singleton.
Qed.

Lemma items_of_join (items : list str) :
  items ≠ [] → Forall (λ x, strip x = x ∧ COMMA ∉ x) items →
  items_of (join (lit ", ") items) = items.
Proof.
  intros. apply (items_of_join_spaced [] items); try done.
  apply not_elem_of_nil.
Qed.

Lemma lstrip_length (s : str) : (length (lstrip s) ≤ length s)%nat.
Proof.
  induction s as [|c s IH]; simpl; [done|].
  destruct (isspace c); simpl; lia.
Qed.

Lemma rstrip_length (s : str) : (length (rstrip s) ≤ length s)%nat.
Proof.
  induction s as [|c s IH]; simpl; [done|].
  destruct (rstrip s); [destruct (isspace c)|]; simpl in *; lia.
Qed.

(** A trimmed string does not start with white space. *)
Lemma trimmed_head (c : char) (s : str) :
  strip (c :: s) = c :: s → isspace c = false.
Proof.
  unfold strip. simpl. destruct (isspace c) eqn:Hc; [|done].
  intros Heq. pose proof (rstrip_length (lstrip s)) as H1.
  pose proof (lstrip_length s) as H2. rewrite Heq in H1. simpl in H1. lia.
Qed.

Lemma elem_of_slice (c : char) (s : str) : c ∈ slice_1_m1 s → c ∈ s.
Proof.
  unfold slice_1_m1. destruct s as [|d s]; simpl; [done|].
  intros Hin. right. revert Hin.
  induction s as [|e s IH]; simpl; [done|].
  destruct s as [|f s]; [by intros ?%elem_of_nil|].
  intros [->|Hin]%elem_of_cons; [by left|]. right. by apply IH.
Qed.

Lemma elem_of_unwrap (c : char) (s : str) : c ∈ unwrap s → c ∈ s.
Proof.
  unfold unwrap.
  destruct (startswith LBRACKET s && endswith RBRACKET s); [|done].
  apply elem_of_slice.
Qed.

Lemma items_of_comma_free (content x : str) : x ∈ items_of content → COMMA ∉ x.
Proof.
  unfold items_of. intros (p & -> & Hp)%list_elem_of_fmap Hc.
  apply elem_of_strip in Hc. by apply (split_sep_free COMMA content p).
Qed.

(** ** Parsing: the lines one by one *)

Lemma bs_parse_line_labelled sections line :
  BookSoundtrack.parse_line sections line
  = Ok (match labelled line with
        | Some entry => <[entry.1 := entry.2]> sections
        | None => sections
        end).
Proof.
  unfold BookSoundtrack.parse_line, labelled, unwrap.
  destruct (contains COLON (strip line)) eqn:Hcolon.
  - destruct (split1_contains _ _ Hcolon) as (a & b & Hsplit & _).
    rewrite Hsplit. destruct (strip line); [done|]. reflexivity.
  - rewrite orb_true_r. reflexivity.
Qed.

Lemma bs_parse_lines_labelled lines sections :
  BookSoundtrack.parse_lines lines sections
  = Ok (store_all sections (omap labelled lines)).
Proof.
  revert sections. induction lines as [|line lines IH]; intros sections; [done|].
  simpl. rewrite bs_parse_line_labelled. simpl. rewrite IH.
  by destruct (labelled line).
Qed.

Lemma bt_parse_line_labelled sections current_section line :
  blank_or_labelled line →
  ∃ current_section',
    BookTrack.parse_line (sections, current_section) line
    = Ok (match labelled line with
          | Some entry => <[entry.1 := entry.2]> sections
          | None => sections
          end, current_section').
Proof.
  unfold BookTrack.parse_line, labelled, unwrap, blank_or_labelled.
  rewrite <- (contains_strip COLON line colon_visible).
  intros [Hblank|Hcolon].
  - rewrite Hblank. exists current_section. reflexivity.
  - rewrite Hcolon.
    destruct (split1_contains _ _ Hcolon) as (a & b & Hsplit & _).
    rewrite Hsplit. destruct (strip line); [done|]. eexists. reflexivity.
Qed.

Lemma bt_parse_lines_labelled lines sections current_section :
  Forall blank_or_labelled lines →
  ∃ current_section',
    BookTrack.parse_lines lines (sections, current_section)
    = Ok (store_all sections (omap labelled lines), current_section').
Proof.
  intros Hall. revert sections current_section.
  induction Hall as [|line lines Hline _ IH]; intros sections current_section.
  - by exists current_section.
  - cbn [BookTrack.parse_lines].
    destruct (bt_parse_line_labelled sections current_section line Hline)
      as [cur ->].
    simpl. destruct (labelled line) as [entry|]; apply IH.
Qed.

(** Storing into the empty profile: the last entry of a label stays. *)
Lemma store_all_snoc sections entries entry :
  store_all sections (entries ++ [entry])
  = <[entry.1 := entry.2]> (store_all sections entries).
Proof. unfold store_all. by rewrite foldl_app. Qed.

Lemma store_all_list_to_map entries :
  store_all ∅ entries = list_to_map (reverse entries).
Proof.
  induction entries as [|entry entries IH] using rev_ind; [done|].
  rewrite store_all_snoc, reverse_snoc, IH. by destruct entry.
Qed.

Lemma strip_format_line (k : str) (inner : str) :
  strip k = k →
  strip (k ++ COLON :: SPACE :: LBRACKET :: inner ++ [RBRACKET])
  = k ++ COLON :: SPACE :: LBRACKET :: inner ++ [RBRACKET].
Proof.
  intros Hk. unfold strip.
  assert (lstrip (k ++ COLON :: SPACE :: LBRACKET :: inner ++ [RBRACKET])
          = k ++ COLON :: SPACE :: LBRACKET :: inner ++ [RBRACKET]) as ->.
  { destruct k as [|c k]; [done|]. simpl. by rewrite (trimmed_head c k Hk). }
  replace (k ++ COLON :: SPACE :: LBRACKET :: inner ++ [RBRACKET])
    with ((k ++ COLON :: SPACE :: LBRACKET :: inner) ++ [RBRACKET])
    by (by rewrite <- app_assoc).
  by apply rstrip_app_last.
Qed.

Lemma labelled_format_line entry :
  plain_entry entry → labelled (format_line entry) = Some entry.
Proof.
  destruct entry as [k items]. intros ([Hk [Hcolon _]] & Hne & Hitems).
  simpl in Hk, Hcolon, Hne, Hitems. unfold labelled.
  change (format_line (k, items))
    with (k ++ COLON :: SPACE :: LBRACKET :: join (lit ", ") items ++ [RBRACKET]).
  cbv zeta. rewrite (strip_format_line k _ Hk).
  assert (contains COLON
            (k ++ COLON :: SPACE :: LBRACKET :: join (lit ", ") items ++ [RBRACKET])
          = true) as ->.
  { apply contains_elem_of, elem_of_app. right. by left. }
  rewrite split1_first by (by apply not_contains).
  rewrite Hk.
  assert (strip (SPACE :: LBRACKET :: join (lit ", ") items ++ [RBRACKET])
          = LBRACKET :: join (lit ", ") items ++ [RBRACKET]) as ->.
  { unfold strip.
    change (lstrip (SPACE :: LBRACKET :: join (lit ", ") items ++ [RBRACKET]))
      with (LBRACKET :: join (lit ", ") items ++ [RBRACKET]).
    exact (rstrip_app_last (LBRACKET :: join (lit ", ") items) RBRACKET eq_refl). }
  unfold unwrap. rewrite unwrap_bracketed.
  rewrite items_of_join; [done|done|].
  eapply Forall_impl; [exact Hitems|]. by intros x (? & ? & ?).
Qed.

Lemma join_sep_free (sep : char) (glue : str) (l : list str) :
  sep ∉ glue → Forall (λ x, sep ∉ x) l → sep ∉ join glue l.
Proof.
  intros Hglue. induction 1 as [|x l Hx _ IH]; simpl; [apply not_elem_of_nil|].
  destruct l as [|y l]; [done|]. rewrite !not_elem_of_app. done.
Qed.

Lemma format_line_one_line entry :
  plain_entry entry → NEWLINE ∉ format_line entry.
Proof.
  destruct entry as [k items]. intros ((_ & _ & Hk) & _ & Hitems).
  simpl in Hk, Hitems.
  change (format_line (k, items))
    with (k ++ [COLON; SPACE; LBRACKET] ++ join (lit ", ") items ++ [RBRACKET]).
  rewrite !not_elem_of_app. split; [done|]. split; [|split].
  - by intros [[=]|[[=]|[[=]|?%elem_of_nil]%elem_of_cons]%elem_of_cons]%elem_of_cons.
  - apply join_sep_free.
    + by intros [[=]|[[=]|?%elem_of_nil]%elem_of_cons]%elem_of_cons.
    + eapply Forall_impl; [exact Hitems|]. by intros x (? & ? & ?).
  - by intros [=]%list_elem_of_singleton.
Qed.

Lemma omap_cons_Some {A B} (f : A → option B) x l y :
  f x = Some y → omap f (x :: l) = y :: omap f l.
Proof. intros H. simpl. by rewrite H. Qed.

Lemma labels_format_profile entries :
  entries ≠ [] → Forall plain_entry entries →
  labels (format_profile entries) = entries.
Proof.
  intros Hne Hall. unfold labels, format_profile.
  rewrite split_join.
  - clear Hne. induction Hall as [|entry entries Hentry _ IH]; [done|].
    rewrite map_cons.
    by rewrite (omap_cons_Some _ _ _ _ (labelled_format_line entry Hentry)), IH.
  - by destruct entries.
  - apply Forall_fmap. eapply Forall_impl; [exact Hall|].
    intros entry. apply format_line_one_line.
Qed.

(** ** Parsing: what a returned profile holds *)

Lemma items_of_plain (content : str) :
  NEWLINE ∉ content → Forall plain_term (items_of content).
Proof.
  intros Hnl. apply Forall_forall. intros x Hx. split; [|split].
  - by apply (items_of_trimmed content).
  - by apply (items_of_comma_free content).
  - intros Hin. apply Hnl. by apply (elem_of_items_of content x).
Qed.

Lemma labelled_plain (line k : str) (v : list str) :
  NEWLINE ∉ line → labelled line = Some (k, v) →
  plain_label k ∧ Forall plain_term v.
Proof.
  intros Hnl. unfold labelled. cbv zeta.
  destruct (contains COLON (strip line)) eqn:Hcolon; [|done].
  destruct (split1_contains_first _ _ Hcolon) as (a & b & -> & Hline & Ha).
  intros [= <- <-].
  assert (NEWLINE ∉ strip line) as Hnl' by (intros ?%elem_of_strip; done).
  rewrite Hline, not_elem_of_app, not_elem_of_cons in Hnl'.
  destruct Hnl' as (Hnla & _ & Hnlb).
  split; [split; [apply strip_idem|split]|].
  - intros ?%elem_of_strip. by apply not_contains in Ha.
  - by intros ?%elem_of_strip.
  - apply items_of_plain. by intros ?%elem_of_unwrap%elem_of_strip.
Qed.

Lemma clean_profile_insert sections k v :
  clean_profile sections → plain_label k → Forall plain_term v →
  clean_profile (<[k:=v]> sections).
Proof. intros. by apply map_Forall_insert_2. Qed.

Lemma store_all_clean entries sections :
  clean_profile sections →
  Forall (λ entry, plain_label entry.1 ∧ Forall plain_term entry.2) entries →
  clean_profile (store_all sections entries).
Proof.
  intros Hs Hall. revert sections Hs.
  induction Hall as [|[k v] entries [Hk Hv] _ IH]; intros sections Hs; [done|].
  apply IH. by apply clean_profile_insert.
Qed.

Lemma labels_plain (lines : list str) :
  Forall (λ line, NEWLINE ∉ line) lines →
  Forall (λ entry, plain_label entry.1 ∧ Forall plain_term entry.2)
         (omap labelled lines).
Proof.
  induction 1 as [|line lines Hline _ IH]; [constructor|]. simpl.
  destruct (labelled line) as [[k v]|] eqn:Hl; [|done].
  constructor; [|done]. by apply (labelled_plain line).
Qed.

Lemma split_lines_one_line (text : str) :
  Forall (λ line, NEWLINE ∉ line) (split NEWLINE text).
Proof. apply Forall_forall. intros line. apply split_sep_free. Qed.

(** What one turn of the loop of [BookTrack.py] does to [sections]. *)
Lemma bt_parse_line_cases sections current_section line st' :
  BookTrack.parse_line (sections, current_section) line = Ok st' →
  st'.1 = sections
  ∨ (∃ k v, labelled line = Some (k, v) ∧ st'.1 = <[k:=v]> sections)
  ∨ (∃ k l, sections !! k = Some l
       ∧ st'.1 = <[k := l ++ items_of (strip (strip line))]> sections).
Proof.
  unfold BookTrack.parse_line, labelled, unwrap. cbv zeta.
  destruct (truthy (strip line)) eqn:Hline; simpl negb; cbv iota;
    [|intros [= <-]; by left].
  destruct (contains COLON (strip line)) eqn:Hcolon.
  - destruct (split1_contains _ _ Hcolon) as (a & b & -> & _). simpl.
    intros [= <-]. right. left. eauto.
  - destruct current_section as [cur|]; [|intros [= <-]; by left].
    destruct (truthy cur); [|intros [= <-]; by left].
    destruct (truthy (strip (strip line))); [|intros [= <-]; by left].
    unfold getitem. destruct (sections !! cur) as [l|] eqn:Hl; [|done].
    simpl. intros [= <-]. right. right. eauto.
Qed.

Lemma bt_parse_line_clean st line :
  current_known st → clean_profile st.1 → NEWLINE ∉ line →
  ∃ st', BookTrack.parse_line st line = Ok st'
         ∧ current_known st' ∧ clean_profile st'.1.
Proof.
  intros Hknown Hclean Hnl.
  destruct (bt_parse_line_spec st line Hknown) as (st' & Hst' & Hknown' & _).
  exists st'. split; [done|]. split; [done|].
  destruct st as [sections current_section].
  destruct (bt_parse_line_cases _ _ _ _ Hst')
    as [->|[(k & v & Hl & ->)|(k & l & Hk & ->)]]; [done| |].
  - destruct (labelled_plain line k v Hnl Hl). by apply clean_profile_insert.
  - destruct (Hclean k l Hk) as [Hpk Hpl].
    apply clean_profile_insert; [done|done|].
    apply Forall_app. split; [done|]. apply items_of_plain.
    by intros ?%elem_of_strip%elem_of_strip.
Qed.

Lemma bt_parse_lines_clean lines st :
  current_known st → clean_profile st.1 →
  Forall (λ line, NEWLINE ∉ line) lines →
  ∃ st', BookTrack.parse_lines lines st = Ok st' ∧ clean_profile st'.1.
Proof.
  intros Hknown Hclean Hall. revert st Hknown Hclean.
  induction Hall as [|line lines Hline _ IH]; intros st Hknown Hclean.
  - by exists st.
  - cbn [BookTrack.parse_lines].
    destruct (bt_parse_line_clean st line Hknown Hclean Hline)
      as (st1 & -> & Hk1 & Hc1).
    simpl. by apply IH.
Qed.

Lemma parsed_profile_clean (text : str) (sections : Profile) :
  BookTrack.parse_gemini_analysis text = Some sections
    ∨ BookSoundtrack.parse_gemini_analysis text = Some sections →
  clean_profile sections.
Proof.
  unfold BookTrack.parse_gemini_analysis, BookSoundtrack.parse_gemini_analysis.
  destruct (truthy text); simpl negb; cbv iota; [|by intros [|]].
  intros [H|H].
  - destruct (bt_parse_lines_clean (split NEWLINE text) (∅, None))
      as ([s cur] & Hs & Hc);
      [apply start_known|apply map_Forall_empty|apply split_lines_one_line|].
    rewrite Hs in H. by injection H as <-.
  - rewrite bs_parse_lines_labelled in H. injection H as <-.
    apply store_all_clean; [apply map_Forall_empty|].
    apply labels_plain, split_lines_one_line.
Qed.

(** X1. The category names of a returned profile are trimmed and hold no
    colon and no line feed (U+000A, the character the text is split on),
    in both files. Other line breaks, such as U+000D inside a name, are
    not excluded. *)
Theorem labels_are_plain (text : str) (sections : Profile) (category : str)
    (terms : list str) :
  BookTrack.parse_gemini_analysis text = Some sections
    ∨ BookSoundtrack.parse_gemini_analysis text = Some sections →
  sections !! category = Some terms →
  strip category = category ∧ (COLON ∉ category) ∧ (NEWLINE ∉ category).
Proof.
  intros Hparse Hterms.
  by destruct (parsed_profile_clean text sections Hparse category terms Hterms).
Qed.

Lemma labels_are_plain_witness :
  strip (lit "Moods") = lit "Moods"
  ∧ (COLON ∉ lit "Moods") ∧ (NEWLINE ∉ lit "Moods").
Proof.
  apply (labels_are_plain (lit " Moods : calm, tense") {[ MOODS := [lit "calm"; lit "tense"] ]}
           (lit "Moods") [lit "calm"; lit "tense"]).
  - left. vm_compute. reflexivity.
  - vm_compute. reflexivity.
Defined.

(** X2. No stored term holds a comma or a line feed (U+000A), in both
    files: a term is one piece between two commas of one piece of the
    text between two line feeds. Other line breaks, such as U+000D or
    U+2028, are not excluded. *)
Theorem terms_hold_no_separator (text : str) (sections : Profile)
    (category : str) (terms : list str) (x : str) :
  BookTrack.parse_gemini_analysis text = Some sections
    ∨ BookSoundtrack.parse_gemini_analysis text = Some sections →
  sections !! category = Some terms →
  x ∈ terms →
  (COMMA ∉ x) ∧ (NEWLINE ∉ x).
Proof.
  intros Hparse Hterms Hx.
  destruct (parsed_profile_clean text sections Hparse category terms Hterms)
    as [_ Hall].
  rewrite Forall_forall in Hall. by destruct (Hall x Hx) as (_ & ? & ?).
Qed.

Lemma terms_hold_no_separator_witness :
  (COMMA ∉ lit "tense") ∧ (NEWLINE ∉ lit "tense").
Proof.
  apply (terms_hold_no_separator (lit "Moods: calm, tense")
           {[ MOODS := [lit "calm"; lit "tense"] ]}
           (lit "Moods") [lit "calm"; lit "tense"] (lit "tense")).
  - right. vm_compute. reflexivity.
  - vm_compute. reflexivity.
  - right. left.
Defined.

(** X3. In [book_soundtrack.py] the profile is made of the lines with a
    colon alone, the last line of a label replacing the earlier ones:
    lines without a colon change nothing. *)
Theorem book_soundtrack_last_label_wins (text : str) :
  BookSoundtrack.parse_gemini_analysis text
  = if truthy text then Some (list_to_map (reverse (labels text))) else None.
Proof.
  unfold BookSoundtrack.parse_gemini_analysis, labels.
  destruct (truthy text); [|done]. simpl.
  by rewrite bs_parse_lines_labelled, store_all_list_to_map.
Qed.

(** X4. On a text whose lines are all blank or hold a colon, the parsers
    of the two files return the same profile: they differ on continuation
    lines only. *)
Theorem parsers_agree_without_continuation (text : str) :
  Forall blank_or_labelled (split NEWLINE text) →
  BookTrack.parse_gemini_analysis text
  = BookSoundtrack.parse_gemini_analysis text.
Proof.
  intros Hall.
  unfold BookTrack.parse_gemini_analysis, BookSoundtrack.parse_gemini_analysis.
  destruct (truthy text); [|done]. simpl.
  destruct (bt_parse_lines_labelled (split NEWLINE text) ∅ None Hall) as [cur ->].
  by rewrite bs_parse_lines_labelled.
Qed.

Lemma parsers_agree_without_continuation_witness :
  BookTrack.parse_gemini_analysis (lit "Genres: [rock]" ++ [NEWLINE] ++ lit "  ")
  = BookSoundtrack.parse_gemini_analysis (lit "Genres: [rock]" ++ [NEWLINE] ++ lit "  ").
Proof.
  apply parsers_agree_without_continuation.
  change (Forall blank_or_labelled [lit "Genres: [rock]"; lit "  "]).
  constructor; [right; vm_compute; reflexivity|].
  constructor; [left; vm_compute; reflexivity|constructor].
Defined.

(** X5. A response in the format the prompt asks for is read back as it
    was written: for labels that are trimmed and hold no colon or line
    break, each with at least one term, the terms trimmed and without
    comma or line break, both parsers return the written entries, a later
    entry replacing an earlier one of the same label. *)
Theorem formatted_response_read_back (entries : list (str * list str)) :
  entries ≠ [] →
  Forall plain_entry entries →
  BookTrack.parse_gemini_analysis (format_profile entries)
    = Some (list_to_map (reverse entries))
  ∧ BookSoundtrack.parse_gemini_analysis (format_profile entries)
    = Some (list_to_map (reverse entries)).
Proof.
  intros Hne Hall.
  pose proof (labels_format_profile entries Hne Hall) as Hlabels.
  assert (truthy (format_profile entries) = true) as Htruthy.
  { destruct (format_profile entries); [|done]. by destruct entries. }
  assert (BookSoundtrack.parse_gemini_analysis (format_profile entries)
          = Some (list_to_map (reverse entries))) as Hbs.
  { unfold BookSoundtrack.parse_gemini_analysis. rewrite Htruthy. simpl.
    rewrite bs_parse_lines_labelled, store_all_list_to_map.
    unfold labels in Hlabels. by rewrite Hlabels. }
  split; [|done]. rewrite <- Hbs.
  unfold BookTrack.parse_gemini_analysis, BookSoundtrack.parse_gemini_analysis.
  rewrite Htruthy. simpl.
  assert (Forall blank_or_labelled (split NEWLINE (format_profile entries)))
    as Hlines.
  { unfold format_profile. rewrite split_join.
    - apply Forall_fmap. eapply Forall_impl; [exact Hall|].
      intros [k items] _. right. apply contains_elem_of.
      apply elem_of_app. right. by left.
    - by destruct entries.
    - apply Forall_fmap. eapply Forall_impl; [exact Hall|].
      intros entry. apply format_line_one_line. }
  destruct (bt_parse_lines_labelled _ ∅ None Hlines) as [cur ->].
  by rewrite bs_parse_lines_labelled.
Qed.

Lemma formatted_response_read_back_witness :
  BookSoundtrack.parse_gemini_analysis
    (format_profile [(lit "Genres", [lit "rock"; lit "folk"]);
                     (lit "Moods", [lit "calm"])])
  = Some (list_to_map (reverse [(lit "Genres", [lit "rock"; lit "folk"]);
                                (lit "Moods", [lit "calm"])])).
Proof.
  refine (proj2 (formatted_response_read_back
    [(lit "Genres", [lit "rock"; lit "folk"]); (lit "Moods", [lit "calm"])] _ _)).
  - discriminate.
  - repeat constructor; try (vm_compute; reflexivity);
      try (intros H; apply contains_elem_of in H; vm_compute in H; discriminate);
      discriminate.
Defined.

(** ** Track matching: the queries of a profile *)

Lemma weighted_bounds (max_tracks w : Z) :
  (0 ≤ max_tracks)%Z → (0 ≤ w ≤ 30)%Z →
  (0 ≤ weighted max_tracks w)%Z ∧ (10 * weighted max_tracks w ≤ 3 * max_tracks)%Z.
Proof.
  intros Hm Hw. unfold weighted.
  rewrite Z.quot_div_nonneg by lia.
  split; [apply Z.div_pos; lia|].
  pose proof (Z.mul_div_le (max_tracks * w) 100 ltac:(lia)). nia.
Qed.

(** The limits of the queries are the three weighted counts. *)
Lemma bt_query_limit (analysis : Profile) (max_tracks : Z) (q : Query) :
  q ∈ BookTrack.search_queries analysis max_tracks →
  limit q ∈ [weighted max_tracks weight_genres;
             weighted max_tracks weight_emotional_tones;
             weighted max_tracks weight_keywords].
Proof.
  unfold BookTrack.search_queries, BookTrack.genre_queries,
    BookTrack.combination_queries, BookTrack.mood_queries,
    BookTrack.keyword_queries.
  rewrite !elem_of_app.
  intros [H|[H|[H|H]]].
  - destruct (analysis !! GENRES); [|by apply elem_of_nil in H].
    apply list_elem_of_fmap in H as (? & -> & _). by left.
  - destruct (analysis !! EMOTIONAL_TONES), (analysis !! GENRES);
      try by apply elem_of_nil in H.
    apply list_elem_of_In, in_flat_map in H as (? & _ & H).
    apply list_elem_of_In, list_elem_of_fmap in H as (? & -> & _).
    right. by left.
  - destruct (analysis !! MOODS); [|by apply elem_of_nil in H].
    apply list_elem_of_fmap in H as (? & -> & _). right. by left.
  - destruct (analysis !! KEYWORDS); [|by apply elem_of_nil in H].
    apply list_elem_of_fmap in H as (? & -> & _). right. right. by left.
Qed.

Lemma bs_query_limit (analysis : Profile) (max_tracks : Z) (q : Query) :
  q ∈ BookSoundtrack.search_queries analysis max_tracks →
  limit q ∈ [weighted max_tracks weight_genres;
             weighted max_tracks weight_emotional_tones;
             weighted max_tracks weight_keywords].
Proof.
  unfold BookSoundtrack.search_queries, BookSoundtrack.genre_queries,
    BookSoundtrack.combination_queries, BookSoundtrack.mood_queries,
    BookSoundtrack.keyword_queries.
  rewrite !elem_of_app.
  intros [H|[H|[H|H]]].
  - destruct (analysis !! GENRES); [|by apply elem_of_nil in H].
    apply list_elem_of_fmap in H as (? & -> & _). by left.
  - destruct (analysis !! EMOTIONAL_TONES), (analysis !! GENRES);
      try by apply elem_of_nil in H.
    apply list_elem_of_In, in_flat_map in H as (? & _ & H).
    apply list_elem_of_In, list_elem_of_fmap in H as (? & -> & _).
    right. by left.
  - destruct (analysis !! MOODS); [|by apply elem_of_nil in H].
    apply list_elem_of_fmap in H as (? & -> & _). right. by left.
  - destruct (analysis !! KEYWORDS); [|by apply elem_of_nil in H].
    apply list_elem_of_fmap in H as (? & -> & _). right. right. by left.
Qed.

Lemma one_of_three_limits (max_tracks l : Z) :
  l ∈ [weighted max_tracks weight_genres;
       weighted max_tracks weight_emotional_tones;
       weighted max_tracks weight_keywords] →
  (0 ≤ max_tracks)%Z →
  (0 ≤ l)%Z ∧ (10 * l ≤ 3 * max_tracks)%Z.
Proof.
  intros Hl Hm.
  apply elem_of_cons in Hl as [->|Hl];
    [|apply elem_of_cons in Hl as [->|Hl];
      [|apply list_elem_of_singleton in Hl as ->]];
    apply weighted_bounds; unfold weight_genres, weight_emotional_tones,
      weight_keywords; lia.
Qed.

(** What the stage logs, in both files: the queries of the profile, when
    there is a client and the profile is not empty. *)
Lemma bt_search_unfold (sp : Spotify) (profile : Profile) (max_tracks : Z) :
  profile ≠ ∅ →
  BookTrack.search_spotify_tracks (Some sp) (Some profile) max_tracks
  = (rank BookTrack.popularity
       (merge listed_by_id []
          (concat (map (contribution BookTrack.track_of_item)
             (responses sp 0 (BookTrack.search_queries profile max_tracks)))))
       max_tracks,
     trace (query_failed BookTrack.track_of_item)
       (BookTrack.search_queries profile max_tracks)
       (responses sp 0 (BookTrack.search_queries profile max_tracks))).
Proof.
  intros Hne. unfold BookTrack.search_spotify_tracks. simpl.
  rewrite bool_decide_eq_false_2 by done.
  by rewrite BookTrack_run_queries_spec.
Qed.

Lemma bs_search_unfold (sp : Spotify) (profile : Profile) (max_tracks : Z) :
  profile ≠ ∅ →
  BookSoundtrack.search_spotify_tracks (Some sp) (Some profile) max_tracks
  = (rank BookSoundtrack.popularity
       (merge listed_whole []
          (concat (map (contribution BookSoundtrack.track_of_item)
             (responses sp 0 (BookSoundtrack.search_queries profile max_tracks)))))
       max_tracks,
     trace (query_failed BookSoundtrack.track_of_item)
       (BookSoundtrack.search_queries profile max_tracks)
       (responses sp 0 (BookSoundtrack.search_queries profile max_tracks))).
Proof.
  intros Hne. unfold BookSoundtrack.search_spotify_tracks. simpl.
  rewrite bool_decide_eq_false_2 by done.
  by rewrite BookSoundtrack_run_queries_spec.
Qed.

Lemma rank_nil {A} (key : A → Z) (max_tracks : Z) : rank key [] max_tracks = [].
Proof.
  unfold rank, slice_to. simpl. by destruct (max_tracks <? 0)%Z, (Z.to_nat max_tracks).
Qed.

Lemma bt_queries_empty max_tracks : BookTrack.search_queries ∅ max_tracks = [].
Proof. reflexivity. Qed.

Lemma bs_queries_empty max_tracks : BookSoundtrack.search_queries ∅ max_tracks = [].
Proof. reflexivity. Qed.

(** The queries issued, whatever the client and the profile. *)
Lemma bt_searches (sp : Spotify) (profile : Profile) (max_tracks : Z) :
  searches (BookTrack.search_spotify_tracks (Some sp) (Some profile) max_tracks).2
  = BookTrack.search_queries profile max_tracks.
Proof.
  destruct (decide (profile = ∅)) as [->|Hne]; [done|].
  rewrite bt_search_unfold by done. apply searches_trace.
Qed.

Lemma bs_searches (sp : Spotify) (profile : Profile) (max_tracks : Z) :
  searches (BookSoundtrack.search_spotify_tracks (Some sp) (Some profile) max_tracks).2
  = BookSoundtrack.search_queries profile max_tracks.
Proof.
  destruct (decide (profile = ∅)) as [->|Hne]; [done|].
  rewrite bs_search_unfold by done. apply searches_trace.
Qed.

Lemma not_read_lookup (analysis : Profile) (category : str) (terms : list str) :
  category ∉ read_categories →
  (<[category := terms]> analysis) !! GENRES = analysis !! GENRES
  ∧ (<[category := terms]> analysis) !! EMOTIONAL_TONES = analysis !! EMOTIONAL_TONES
  ∧ (<[category := terms]> analysis) !! MOODS = analysis !! MOODS
  ∧ (<[category := terms]> analysis) !! KEYWORDS = analysis !! KEYWORDS.
Proof.
  unfold read_categories. rewrite !not_elem_of_cons.
  intros (? & ? & ? & ? & _). by rewrite !lookup_insert_ne.
Qed.

(** X6. The matching stage reads the categories Genres, Emotional Tones,
    Moods and Keywords only: a category of any other name, such as the
    time period, changes neither the queries nor the result, in both
    files. *)
Theorem other_categories_are_not_searched (sp : option Spotify)
    (analysis : Profile) (category : str) (terms : list str) (max_tracks : Z) :
  category ∉ read_categories →
  BookTrack.search_spotify_tracks sp (Some (<[category := terms]> analysis)) max_tracks
    = BookTrack.search_spotify_tracks sp (Some analysis) max_tracks
  ∧ BookSoundtrack.search_spotify_tracks sp (Some (<[category := terms]> analysis))
      max_tracks
    = BookSoundtrack.search_spotify_tracks sp (Some analysis) max_tracks.
Proof.
  intros Hother.
  destruct (not_read_lookup analysis category terms Hother) as (Hg & Ht & Hm & Hk).
  assert (BookTrack.search_queries (<[category := terms]> analysis) max_tracks
          = BookTrack.search_queries analysis max_tracks) as Hbt.
  { unfold BookTrack.search_queries, BookTrack.genre_queries,
      BookTrack.combination_queries, BookTrack.mood_queries,
      BookTrack.keyword_queries. unfold str in *. by rewrite Hg, Ht, Hm, Hk. }
  assert (BookSoundtrack.search_queries (<[category := terms]> analysis) max_tracks
          = BookSoundtrack.search_queries analysis max_tracks) as Hbs.
  { unfold BookSoundtrack.search_queries, BookSoundtrack.genre_queries,
      BookSoundtrack.combination_queries, BookSoundtrack.mood_queries,
      BookSoundtrack.keyword_queries. unfold str in *. by rewrite Hg, Ht, Hm, Hk. }
  destruct sp as [sp|]; [|done].
  assert (<[category := terms]> analysis ≠ ∅) as Hne by apply insert_non_empty.
  rewrite bt_search_unfold, bs_search_unfold by done. rewrite Hbt, Hbs.
  destruct (decide (analysis = ∅)) as [->|Hne'].
  - rewrite bt_queries_empty, bs_queries_empty. simpl. by rewrite !rank_nil.
  - by rewrite bt_search_unfold, bs_search_unfold.
Qed.

Lemma other_categories_are_not_searched_witness :
  BookTrack.search_spotify_tracks (Some changing_catalog)
    (Some (<[lit "Time Period/Cultural Context" := [lit "Regency"]]> rock_sea)) 15
  = BookTrack.search_spotify_tracks (Some changing_catalog) (Some rock_sea) 15.
Proof.
  refine (proj1 (other_categories_are_not_searched (Some changing_catalog)
    rock_sea (lit "Time Period/Cultural Context") [lit "Regency"] 15 _)).
  unfold read_categories. rewrite !not_elem_of_cons.
  repeat split; try discriminate. apply not_elem_of_nil.
Defined.

Lemma length_pairs {A B C} (f : A → B → C) (l1 : list A) (l2 : list B) :
  length (flat_map (λ a, map (f a) l2) l1) = (length l1 * length l2)%nat.
Proof.
  induction l1 as [|a l1 IH]; simpl; [done|].
  by rewrite length_app, length_map, IH.
Qed.

(** X7. The number of searches of a run, from the sizes of the four
    categories (an absent category counts as empty): in [BookTrack.py]
    one per genre, one per pair of the first two tones and the first two
    genres, one for each of the first three moods and one per keyword; in
    [book_soundtrack.py] every tone is paired and every mood searched. *)
Theorem number_of_searches (sp : Spotify) (analysis : Profile) (max_tracks : Z) :
  length (searches
    (BookTrack.search_spotify_tracks (Some sp) (Some analysis) max_tracks).2)
  = (length (terms_of analysis GENRES)
     + length (terms_of analysis EMOTIONAL_TONES) `min` 2
       * (length (terms_of analysis GENRES) `min` 2)
     + length (terms_of analysis MOODS) `min` 3
     + length (terms_of analysis KEYWORDS))%nat
  ∧ length (searches
      (BookSoundtrack.search_spotify_tracks (Some sp) (Some analysis) max_tracks).2)
    = (length (terms_of analysis GENRES)
       + length (terms_of analysis EMOTIONAL_TONES)
         * (length (terms_of analysis GENRES) `min` 2)
       + length (terms_of analysis MOODS)
       + length (terms_of analysis KEYWORDS))%nat.
Proof.
  rewrite bt_searches, bs_searches.
  unfold BookTrack.search_queries, BookTrack.genre_queries,
    BookTrack.combination_queries, BookTrack.mood_queries,
    BookTrack.keyword_queries,
    BookSoundtrack.search_queries, BookSoundtrack.genre_queries,
    BookSoundtrack.combination_queries, BookSoundtrack.mood_queries,
    BookSoundtrack.keyword_queries, terms_of.
  destruct (analysis !! GENRES) as [genres|],
    (analysis !! EMOTIONAL_TONES) as [tones|],
    (analysis !! MOODS) as [moods|],
    (analysis !! KEYWORDS) as [keywords|]; simpl default;
    rewrite ?length_app, ?length_pairs, ?length_map, ?length_firstn;
    rewrite ?(Nat.min_comm 2), ?(Nat.min_comm 3);
    unfold str, char in *; simpl length; split; first [lia | nia].
Qed.

(** X8. For a track count between 0 and 10^15, the range in which the
    floating-point product of the source truncates to the integer taken
    here, every query asks for a number of results that is not negative
    and at most three tenths of the count, in both files. *)
Theorem query_limits_are_bounded (analysis : Profile) (max_tracks : Z) :
  (0 ≤ max_tracks ≤ 10 ^ 15)%Z →
  Forall (λ q, (0 ≤ limit q)%Z ∧ (10 * limit q ≤ 3 * max_tracks)%Z)
         (BookTrack.search_queries analysis max_tracks)
  ∧ Forall (λ q, (0 ≤ limit q)%Z ∧ (10 * limit q ≤ 3 * max_tracks)%Z)
           (BookSoundtrack.search_queries analysis max_tracks).
Proof.
  intros [Hm _]. split; apply Forall_forall; intros q Hq.
  - apply (one_of_three_limits max_tracks); [by apply (bt_query_limit analysis)|done].
  - apply (one_of_three_limits max_tracks); [by apply (bs_query_limit analysis)|done].
Qed.

Lemma query_limits_are_bounded_witness :
  Forall (λ q, (0 ≤ limit q)%Z ∧ (10 * limit q ≤ 3 * 15)%Z)
         (BookTrack.search_queries rock_sea 15).
Proof.
  refine (proj1 (query_limits_are_bounded rock_sea 15 _)). lia.
Defined.

(** X9. With a track count of zero the stage still searches, every query
    asking for zero results, and returns no track whatever the service
    answers, in both files. *)
Theorem zero_tracks_requested (sp : Spotify) (analysis : Profile) :
  (BookTrack.search_spotify_tracks (Some sp) (Some analysis) 0).1 = []
  ∧ searches (BookTrack.search_spotify_tracks (Some sp) (Some analysis) 0).2
    = BookTrack.search_queries analysis 0
  ∧ Forall (λ q, limit q = 0%Z) (BookTrack.search_queries analysis 0)
  ∧ (BookSoundtrack.search_spotify_tracks (Some sp) (Some analysis) 0).1 = []
  ∧ searches (BookSoundtrack.search_spotify_tracks (Some sp) (Some analysis) 0).2
    = BookSoundtrack.search_queries analysis 0
  ∧ Forall (λ q, limit q = 0%Z) (BookSoundtrack.search_queries analysis 0).
Proof.
  assert (∀ l : Z, l ∈ [weighted 0 weight_genres; weighted 0 weight_emotional_tones;
                        weighted 0 weight_keywords] → l = 0%Z) as Hzero.
  { intros l Hl. repeat (apply elem_of_cons in Hl as [->|Hl]; [done|]).
    by apply elem_of_nil in Hl. }
  split; [|split; [apply bt_searches|split; [|split; [|split; [apply bs_searches|]]]]].
  - destruct (decide (analysis = ∅)) as [->|Hne]; [done|].
    by rewrite bt_search_unfold.
  - apply Forall_forall. intros q Hq. by apply Hzero, (bt_query_limit analysis).
  - destruct (decide (analysis = ∅)) as [->|Hne]; [done|].
    by rewrite bs_search_unfold.
  - apply Forall_forall. intros q Hq. by apply Hzero, (bs_query_limit analysis).
Qed.

(** ** Track matching: the returned list *)

Lemma descending_take {A} (key : A → Z) (n : nat) (l : list A) :
  descending key l → descending key (take n l).
Proof.
  unfold descending. intros Hl. revert n.
  induction Hl as [|x l Hl IH Hx]; intros [|n]; simpl; try constructor.
  - apply IH.
  - by apply Forall_take.
Qed.

Lemma rank_descending {A} (key : A → Z) (tracks : list A) (max_tracks : Z) :
  descending key (rank key tracks max_tracks).
Proof.
  unfold rank, slice_to.
  destruct (max_tracks <? 0)%Z; apply descending_take, sort_desc_descending.
Qed.

Lemma elem_of_rank {A} (key : A → Z) (tracks : list A) (max_tracks : Z) (t : A) :
  t ∈ rank key tracks max_tracks → t ∈ tracks.
Proof.
  intros Hin.
  destruct (rank_sublist_perm key tracks max_tracks) as (sorted & Hperm & Hsub).
  eapply elem_of_sublist in Hin; [|exact Hsub]. by rewrite Hperm in Hin.
Qed.

Lemma rank_NoDup {A} (key : A → Z) (tracks : list A) (max_tracks : Z) :
  NoDup tracks → NoDup (rank key tracks max_tracks).
Proof.
  intros Hnd.
  destruct (rank_sublist_perm key tracks max_tracks) as (sorted & Hperm & Hsub).
  eapply sublist_NoDup; [|exact Hsub]. by rewrite Hperm.
Qed.

(** The result of the stage is always a ranking of a merge. *)
Lemma bt_search_is_ranked (sp : option Spotify) (analysis : option Profile)
    (max_tracks : Z) :
  ∃ rs, (BookTrack.search_spotify_tracks sp analysis max_tracks).1
        = rank BookTrack.popularity
            (merge listed_by_id []
               (concat (map (contribution BookTrack.track_of_item) rs)))
            max_tracks
    ∧ ∀ i r, rs !! i = Some r →
        ∃ sp' profile query,
          sp = Some sp' ∧ analysis = Some profile
          ∧ BookTrack.search_queries profile max_tracks !! i = Some query
          ∧ r = search sp' i query.
Proof.
  destruct sp as [sp|], analysis as [profile|];
    try (exists []; split; [simpl; by rewrite rank_nil|by intros i r ?]).
  destruct (decide (profile = ∅)) as [->|Hne].
  - exists []. split; [simpl; by rewrite rank_nil|by intros i r ?].
  - rewrite bt_search_unfold by done.
    exists (responses sp 0 (BookTrack.search_queries profile max_tracks)).
    split; [done|]. intros i r Hr. exists sp, profile.
    assert (∀ qs n, responses sp n qs !! i = Some r →
              ∃ query, qs !! i = Some query ∧ r = search sp (n + i) query) as Haux.
    { clear. revert i. intros i qs. revert i.
      induction qs as [|q qs IH]; intros i n; [done|].
      destruct i as [|i]; simpl.
      - intros [= <-]. exists q. by rewrite Nat.add_0_r.
      - intros (query & ? & ->)%IH. exists query.
        split; [done|]. f_equal. lia. }
    destruct (Haux _ 0%nat Hr) as (query & ? & ->). eauto.
Qed.

Lemma bs_search_is_ranked (sp : option Spotify) (analysis : option Profile)
    (max_tracks : Z) :
  ∃ rs, (BookSoundtrack.search_spotify_tracks sp analysis max_tracks).1
        = rank BookSoundtrack.popularity
            (merge listed_whole []
               (concat (map (contribution BookSoundtrack.track_of_item) rs)))
            max_tracks
    ∧ ∀ i r, rs !! i = Some r →
        ∃ sp' profile query,
          sp = Some sp' ∧ analysis = Some profile
          ∧ BookSoundtrack.search_queries profile max_tracks !! i = Some query
          ∧ r = search sp' i query.
Proof.
  destruct sp as [sp|], analysis as [profile|];
    try (exists []; split; [simpl; by rewrite rank_nil|by intros i r ?]).
  destruct (decide (profile = ∅)) as [->|Hne].
  - exists []. split; [simpl; by rewrite rank_nil|by intros i r ?].
  - rewrite bs_search_unfold by done.
    exists (responses sp 0 (BookSoundtrack.search_queries profile max_tracks)).
    split; [done|]. intros i r Hr. exists sp, profile.
    assert (∀ qs n, responses sp n qs !! i = Some r →
              ∃ query, qs !! i = Some query ∧ r = search sp (n + i) query) as Haux.
    { clear. revert i. intros i qs. revert i.
      induction qs as [|q qs IH]; intros i n; [done|].
      destruct i as [|i]; simpl.
      - intros [= <-]. exists q. by rewrite Nat.add_0_r.
      - intros (query & ? & ->)%IH. exists query.
        split; [done|]. f_equal. lia. }
    destruct (Haux _ 0%nat Hr) as (query & ? & ->). eauto.
Qed.

Lemma elem_of_merge {Track} (listed : Track → list Track → bool)
    (new tracks : list Track) (t : Track) :
  t ∈ merge listed tracks new → t ∈ tracks ∨ t ∈ new.
Proof.
  revert tracks. induction new as [|u new IH]; intros tracks; simpl; [by left|].
  intros [Hin|Hin]%IH; [|right; by right].
  destruct (listed u tracks); [by left|].
  apply elem_of_app in Hin as [?|Hu]; [by left|].
  apply list_elem_of_singleton in Hu as ->. right. by left.
Qed.

Lemma elem_of_normalised_prefix {Track} (track_of_item : Item → Result Track)
    (items : list Item) (t : Track) :
  t ∈ normalised_prefix track_of_item items →
  ∃ item, item ∈ items ∧ track_of_item item = Ok t.
Proof.
  induction items as [|item items IH]; simpl; [by intros ?%elem_of_nil|].
  destruct (track_of_item item) as [u|] eqn:Hu; [|by intros ?%elem_of_nil].
  intros [->|Hin]%elem_of_cons.
  - exists item. split; [by left|done].
  - destruct (IH Hin) as (item' & ? & ?). exists item'. split; [by right|done].
Qed.

Lemma elem_of_contributions {Track} (track_of_item : Item → Result Track)
    (rs : list (Result (list Item))) (t : Track) :
  t ∈ concat (map (contribution track_of_item) rs) →
  ∃ i items item, rs !! i = Some (Ok items) ∧ item ∈ items
                  ∧ track_of_item item = Ok t.
Proof.
  intros (l & Hl & Ht)%list_elem_of_In%in_concat.
  apply list_elem_of_In, list_elem_of_fmap in Hl as (r & -> & Hr).
  apply list_elem_of_lookup in Hr as [i Hi].
  destruct r as [items|e]; simpl in Ht; [|done].
  apply list_elem_of_In, elem_of_normalised_prefix in Ht as (item & ? & ?).
  eauto 6.
Qed.

Lemma merge_whole_NoDup (new tracks : list BookSoundtrack.Track) :
  NoDup tracks → NoDup (merge listed_whole tracks new).
Proof.
  revert tracks. induction new as [|t new IH]; intros tracks Hnd; simpl; [done|].
  apply IH. unfold listed_whole. case_bool_decide as Hin; [done|].
  apply NoDup_app. split; [done|]. split; [|apply NoDup_singleton].
  by intros x Hx ->%list_elem_of_singleton.
Qed.

(** X10. For a track count that is not negative, the returned list is in
    descending order of popularity and has at most that many tracks, in
    both files, whatever the client, the profile and the answers. *)
Theorem result_is_ranked_and_bounded (sp : option Spotify)
    (analysis : option Profile) (max_tracks : Z) :
  (0 ≤ max_tracks)%Z →
  descending BookTrack.popularity
    (BookTrack.search_spotify_tracks sp analysis max_tracks).1
  ∧ (Z.of_nat (length (BookTrack.search_spotify_tracks sp analysis max_tracks).1)
     ≤ max_tracks)%Z
  ∧ descending BookSoundtrack.popularity
      (BookSoundtrack.search_spotify_tracks sp analysis max_tracks).1
  ∧ (Z.of_nat
       (length (BookSoundtrack.search_spotify_tracks sp analysis max_tracks).1)
     ≤ max_tracks)%Z.
Proof.
  intros Hm.
  destruct (bt_search_is_ranked sp analysis max_tracks) as (rs1 & -> & _).
  destruct (bs_search_is_ranked sp analysis max_tracks) as (rs2 & -> & _).
  repeat split; try apply rank_descending; by apply rank_length.
Qed.

Lemma result_is_ranked_and_bounded_witness :
  (Z.of_nat (length (BookTrack.search_spotify_tracks (Some changing_catalog)
                       (Some rock_sea) 15).1) ≤ 15)%Z.
Proof.
  refine (proj1 (proj2 (result_is_ranked_and_bounded (Some changing_catalog)
                          (Some rock_sea) 15 _))). lia.
Defined.

(** X11. The stage invents no track: every returned track is the
    normalization of an item that the service returned for one of the
    queries of the profile, in both files. *)
Theorem returned_tracks_come_from_answers (sp : option Spotify)
    (analysis : option Profile) (max_tracks : Z) :
  (∀ t, t ∈ (BookTrack.search_spotify_tracks sp analysis max_tracks).1 →
     ∃ sp' profile i query items item,
       sp = Some sp' ∧ analysis = Some profile
       ∧ BookTrack.search_queries profile max_tracks !! i = Some query
       ∧ search sp' i query = Ok items ∧ item ∈ items
       ∧ BookTrack.track_of_item item = Ok t)
  ∧ (∀ t, t ∈ (BookSoundtrack.search_spotify_tracks sp analysis max_tracks).1 →
     ∃ sp' profile i query items item,
       sp = Some sp' ∧ analysis = Some profile
       ∧ BookSoundtrack.search_queries profile max_tracks !! i = Some query
       ∧ search sp' i query = Ok items ∧ item ∈ items
       ∧ BookSoundtrack.track_of_item item = Ok t).
Proof.
  split; intros t.
  - destruct (bt_search_is_ranked sp analysis max_tracks) as (rs & -> & Hrs).
    intros [?%elem_of_nil|Hin]%elem_of_rank%elem_of_merge; [done|].
    apply elem_of_contributions in Hin as (i & items & item & Hi & ? & ?).
    destruct (Hrs i _ Hi) as (sp' & profile & query & ? & ? & ? & ?).
    exists sp', profile, i, query, items, item. eauto 10.
  - destruct (bs_search_is_ranked sp analysis max_tracks) as (rs & -> & Hrs).
    intros [?%elem_of_nil|Hin]%elem_of_rank%elem_of_merge; [done|].
    apply elem_of_contributions in Hin as (i & items & item & Hi & ? & ?).
    destruct (Hrs i _ Hi) as (sp' & profile & query & ? & ? & ? & ?).
    exists sp', profile, i, query, items, item. eauto 10.
Qed.

(** X12. In [book_soundtrack.py] the returned list holds no track twice:
    two entries differ in at least one of their six fields. *)
Theorem book_soundtrack_no_track_twice (sp : option Spotify)
    (analysis : option Profile) (max_tracks : Z) :
  NoDup (BookSoundtrack.search_spotify_tracks sp analysis max_tracks).1.
Proof.
  destruct (bs_search_is_ranked sp analysis max_tracks) as (rs & -> & _).
  apply rank_NoDup, merge_whole_NoDup, NoDup_nil_2.
Qed.

(** ** Playlist creation: the batches *)

Lemma batches_concat {A} (size : nat) (l : list A) (fuel : nat) :
  (0 < size)%nat → (length l ≤ fuel)%nat →
  concat (BookSoundtrack.batches fuel size l) = l.
Proof.
  intros Hsize. revert l.
  induction fuel as [|fuel IH]; intros l Hl.
  - destruct l; [done|simpl in Hl; lia].
  - destruct l as [|x l]; [done|].
    cbn [BookSoundtrack.batches concat]. rewrite IH.
    + apply firstn_skipn.
    + rewrite length_skipn. simpl in *. lia.
Qed.

Lemma batches_sizes {A} (size : nat) (fuel : nat) (l : list A) :
  (0 < size)%nat →
  Forall (λ batch, (1 ≤ length batch ≤ size)%nat)
         (BookSoundtrack.batches fuel size l).
Proof.
  intros Hsize. revert l.
  induction fuel as [|fuel IH]; intros l; [constructor|].
  destruct l as [|x l]; [constructor|].
  cbn [BookSoundtrack.batches]. constructor; [|apply IH].
  rewrite length_firstn. simpl. lia.
Qed.

Lemma sent_batches_app log1 log2 :
  sent_batches (log1 ++ log2) = sent_batches log1 ++ sent_batches log2.
Proof. apply omap_app. Qed.

(** The loop over the batches sends a first part of them, and all of them
    when no call raises. *)
Lemma add_batches_sent sp (bs : list (list str)) (n : nat) (playlist : str)
    (log : list Event) :
  ∃ k, sent_batches (BookSoundtrack.add_batches sp n playlist bs log).2
       = sent_batches log ++ take k bs
     ∧ created (BookSoundtrack.add_batches sp n playlist bs log).2 = created log
     ∧ (raises (BookSoundtrack.add_batches sp n playlist bs log).1 = false →
        take k bs = bs).
Proof.
  revert n log. induction bs as [|batch bs IH]; intros n log.
  - exists 0%nat. simpl. by rewrite app_nil_r.
  - simpl. destruct (playlist_add_items sp n playlist batch) as [[]|e].
    + destruct (IH (S n) (log ++ [AddedItems playlist batch])) as (k & Hk & Hc & Hall).
      exists (S k). rewrite Hk, Hc, sent_batches_app. unfold created.
      rewrite omap_app. simpl. rewrite app_nil_r, <- app_assoc.
      split; [done|]. split; [done|]. intros Hok. by rewrite (Hall Hok).
    + exists 1%nat. simpl. rewrite sent_batches_app. unfold created.
      rewrite omap_app. simpl. by rewrite app_nil_r, take_0.
Qed.

Lemma concat_take_prefix {A} (k : nat) (bs : list (list A)) :
  concat (take k bs) `prefix_of` concat bs.
Proof.
  exists (concat (drop k bs)). by rewrite <- concat_app, take_drop.
Qed.

(** What a run of the playlist creation sent and created. *)
Lemma create_playlist_log (sp : option Spotify) (book_info : BookSoundtrack.BookInfo)
    (tracks : list BookSoundtrack.Track) (analysis : Profile) :
  let run := BookSoundtrack.create_spotify_playlist sp book_info tracks analysis in
  let uris := map BookSoundtrack.uri tracks in
  ∃ k, sent_batches run.2 = take k (BookSoundtrack.batches (length uris) 50 uris)
     ∧ (is_Some run.1 →
        take k (BookSoundtrack.batches (length uris) 50 uris)
        = BookSoundtrack.batches (length uris) 50 uris)
     ∧ (created run.2 = []
        ∨ ∃ user, created run.2
            = [(user, BookSoundtrack.playlist_name book_info, true,
                take 300 (BookSoundtrack.playlist_description book_info analysis))]).
Proof.
  cbv zeta. unfold BookSoundtrack.create_spotify_playlist.
  destruct sp as [sp|]; [|exists 0%nat; split; [done|split; [by intros []|by left]]].
  destruct tracks as [|track tracks];
    [exists 0%nat; split; [done|split; [by intros []|by left]]|].
  destruct (current_user sp) as [user|e];
    [|exists 0%nat; split; [done|split; [by intros []|by left]]].
  destruct (user_playlist_create sp _ _ _ _) as [playlist|e];
    [|exists 0%nat; split; [done|split; [by intros []|right; by exists user]]].
  set (uris := map BookSoundtrack.uri (track :: tracks)).
  set (call := CreatedPlaylist _ _ _ _).
  destruct (add_batches_sent sp (BookSoundtrack.batches (length uris) 50 uris) 0
              (playlist_id playlist) [call]) as (k & Hk & Hc & Hall).
  exists k.
  destruct (BookSoundtrack.add_batches _ _ _ _ _) as [[[]|e] log]; simpl in *;
    (split; [done|split; [|right; by exists user]]).
  - intros _. by apply Hall.
  - by intros [].
Qed.

(** X16. Whatever the service answers, the playlist creation sends the
    URIs of the tracks in their ranked order, in batches of 1 to 50: what
    it has sent is always a first part of the list, and the whole list
    when it returns the playlist URL. *)
Theorem playlist_sends_tracks_in_batches (sp : option Spotify)
    (book_info : BookSoundtrack.BookInfo) (tracks : list BookSoundtrack.Track)
    (analysis : Profile) :
  let run := BookSoundtrack.create_spotify_playlist sp book_info tracks analysis in
  sent_uris run.2 `prefix_of` map BookSoundtrack.uri tracks
  ∧ Forall (λ batch, (1 ≤ length batch ≤ 50)%nat) (sent_batches run.2)
  ∧ (is_Some run.1 → sent_uris run.2 = map BookSoundtrack.uri tracks).
Proof.
  cbv zeta.
  destruct (create_playlist_log sp book_info tracks analysis) as (k & Hk & Hall & _).
  cbv zeta in Hk, Hall. unfold sent_uris. fold (sent_batches
    (BookSoundtrack.create_spotify_playlist sp book_info tracks analysis).2).
  rewrite Hk.
  set (uris := map BookSoundtrack.uri tracks) in *.
  assert (concat (BookSoundtrack.batches (length uris) 50 uris) = uris) as Hcat
    by (apply batches_concat; lia).
  split; [|split].
  - pose proof (concat_take_prefix k
      (BookSoundtrack.batches (length uris) 50 uris)) as Hprefix.
    by rewrite Hcat in Hprefix.
  - apply Forall_take, batches_sizes. lia.
  - intros Hsome. by rewrite (Hall Hsome).
Qed.


(** ** Book lookup *)

(** X18. [get_book_info] of [BookTrack.py] finds a book exactly when the
    keys are loaded, the request succeeds with a status that is not 4xx
    or 5xx and a JSON body, and the body lists at least one item whose
    first has a volume record; the book is then made of that record, with
    the fall-back values for the keys it lacks. Anything else gives
    [None], never an exception. *)
Theorem BookTrack_book_found_iff (keys : option BookTrack.Keys)
    (get : str → Result HttpResponse) (title author : str)
    (book_info : BookTrack.BookInfo) :
  BookTrack.get_book_info keys get title author = Some book_info
  ↔ ∃ ks response data first others book,
      keys = Some ks
      ∧ get (BookTrack.book_url ks title author) = Ok response
      ∧ ¬ (400 ≤ status_code response < 600)%Z
      ∧ json response = Ok data
      ∧ volume_items data = Some (first :: others)
      ∧ volumeInfo first = Some book
      ∧ book_info = BookTrack.book_of_volume book.
Proof.
  unfold BookTrack.get_book_info, raise_for_status, first_volume_info. split.
  - destruct keys as [ks|]; [|done].
    destruct (get _) as [response|] eqn:Hget; [|done]. simpl.
    destruct (400 <=? status_code response)%Z eqn:Hlo,
             (status_code response <? 600)%Z eqn:Hhi; simpl; try done;
      (destruct (json response) as [data|] eqn:Hjson; [|done]; simpl;
       destruct (volume_items data) as [[|first others]|] eqn:Hitems; try done;
       simpl; destruct (volumeInfo first) as [book|] eqn:Hbook; [|done];
       simpl; intros [= <-];
       exists ks, response, data, first, others, book;
       repeat split; try done; lia).
  - intros (ks & response & data & first & others & book
            & -> & -> & Hstatus & Hjson & Hitems & Hbook & ->). simpl.
    assert ((400 <=? status_code response)%Z && (status_code response <? 600)%Z
            = false) as ->.
    { apply andb_false_iff.
      destruct (Z.leb_spec 400 (status_code response)); [|by left].
      right. apply Z.ltb_ge. lia. }
    simpl. rewrite Hjson. simpl. rewrite Hitems. simpl. by rewrite Hbook.
Qed.



(** ** The displays *)

(** X20. For a popularity between 0 and 100 both displays print between
    one and six stars, six of them for a popularity of 100 only. *)
Theorem stars_between_one_and_six (popularity : Z) :
  (0 ≤ popularity ≤ 100)%Z →
  (1 ≤ popularity_stars popularity ≤ 6)%nat
  ∧ (popularity_stars popularity = 6%nat ↔ popularity = 100%Z).
Proof.
  intros Hp. unfold popularity_stars.
  assert (0 ≤ popularity / 20 ≤ 5)%Z as Hq.
  { split; [apply Z.div_pos; lia|].
    apply Z.lt_succ_r, Z.div_lt_upper_bound; lia. }
  split; [lia|]. split.
  - intros H6. assert (popularity / 20 = 5)%Z as H5 by lia.
    pose proof (Z.mul_div_le popularity 20 ltac:(lia)). lia.
  - intros ->. reflexivity.
Qed.

Lemma stars_between_one_and_six_witness :
  (1 ≤ popularity_stars 50 ≤ 6)%nat
  ∧ (popularity_stars 50 = 6%nat ↔ 50%Z = 100%Z).
Proof. apply stars_between_one_and_six. lia. Defined.

(** ** The drivers *)

Lemma ranked_merge_ids_NoDup (new : list BookTrack.Track) (max_tracks : Z) :
  NoDup (map BookTrack.id
           (rank BookTrack.popularity (merge listed_by_id [] new) max_tracks)).
Proof.
  destruct (rank_sublist_perm BookTrack.popularity (merge listed_by_id [] new)
              max_tracks) as (sorted & Hperm & Hsub).
  eapply sublist_NoDup; [|apply fmap_sublist, Hsub].
  change (NoDup (BookTrack.id <$> sorted)). rewrite Hperm.
  apply merge_by_id_NoDup, NoDup_nil_2.
Qed.

(** X21. When the run of [BookTrack.py] ends with tracks, every stage has
    passed: the book was found, the generated text was not empty and
    parsed to a profile with at least one category, there was a client,
    and the searches were the queries of that profile for 15 tracks; the
    tracks are at least one and at most 15, in descending order of
    popularity, with one track per id. *)
Theorem BookTrack_run_with_tracks (submit_button : bool)
    (book_title book_author : str) (keys : option BookTrack.Keys)
    (get : str → Result HttpResponse)
    (analyze : BookTrack.BookInfo → option str) (sp : option Spotify)
    (tracks : list BookTrack.Track) :
  (BookTrack.main submit_button book_title book_author keys get analyze sp).1
    = Some (inr tracks) →
  tracks ≠ []
  ∧ (length tracks ≤ 15)%nat
  ∧ descending BookTrack.popularity tracks
  ∧ NoDup (map BookTrack.id tracks)
  ∧ ∃ book_info analysis_text profile,
      BookTrack.get_book_info keys get book_title book_author = Some book_info
      ∧ analyze book_info = Some analysis_text
      ∧ analysis_text ≠ []
      ∧ BookTrack.parse_gemini_analysis analysis_text = Some profile
      ∧ profile ≠ ∅
      ∧ is_Some sp
      ∧ searches
          (BookTrack.main submit_button book_title book_author keys get analyze sp).2
        = BookTrack.search_queries profile 15.
Proof.
  unfold BookTrack.main.
  destruct (submit_button && truthy book_title && truthy book_author); [|done].
  destruct (BookTrack.get_book_info keys get book_title book_author)
    as [book_info|]; [|done].
  destruct (analyze book_info) as [[|c text]|] eqn:Htext; try done.
  destruct (BookTrack.parse_gemini_analysis (c :: text)) as [profile|] eqn:Hparse;
    [|done].
  simpl falsy. case_bool_decide as Hempty; [done|].
  destruct sp as [sp|]; [|done].
  pose proof (bt_searches sp profile 15) as Hsearches.
  destruct (bt_search_is_ranked (Some sp) (Some profile) 15) as (rs & Hrank & _).
  destruct (BookTrack.search_spotify_tracks (Some sp) (Some profile) 15)
    as [ts log]. simpl in Hsearches, Hrank.
  destruct ts as [|t ts]; [done|]. simpl. intros [= <-].
  split; [done|].
  split; [|split; [|split]].
  - pose proof (rank_length BookTrack.popularity
      (merge listed_by_id []
         (concat (map (contribution BookTrack.track_of_item) rs))) 15
      ltac:(lia)) as Hlen.
    rewrite <- Hrank in Hlen. lia.
  - rewrite Hrank. apply rank_descending.
  - rewrite Hrank. apply ranked_merge_ids_NoDup.
  - exists book_info, (c :: text), profile. repeat split; try done; by eexists.
Qed.

Lemma BookTrack_run_with_tracks_witness :
  [full_T1] ≠ [] ∧ (length [full_T1] ≤ 15)%nat.
Proof.
  destruct (BookTrack_run_with_tracks true (lit "Emma") (lit "Austen")
    (Some some_keys) (λ _, Ok emma_response) (λ _, Some (lit "Keywords: sea"))
    (Some changing_catalog) [full_T1]) as (H1 & H2 & _).
  - vm_compute. reflexivity.
  - split; [exact H1|exact H2].
Defined.

(** The searches log no playlist call. *)
Lemma trace_has_no_playlist_call failed (queries : list Query)
    (rs : list (Result (list Item))) :
  created (trace failed queries rs) = []
  ∧ sent_batches (trace failed queries rs) = [].
Proof.
  revert rs. induction queries as [|q queries IH]; intros [|r rs]; try done.
  rewrite trace_cons. unfold created, sent_batches in *.
  rewrite !omap_app. destruct (IH rs) as [-> ->]. by destruct (failed r).
Qed.

Lemma bs_search_has_no_playlist_call (sp : option Spotify)
    (analysis : option Profile) (max_tracks : Z) :
  created (BookSoundtrack.search_spotify_tracks sp analysis max_tracks).2 = []
  ∧ sent_batches (BookSoundtrack.search_spotify_tracks sp analysis max_tracks).2
    = [].
Proof.
  destruct sp as [sp|], analysis as [profile|]; try done.
  destruct (decide (profile = ∅)) as [->|Hne]; [done|].
  rewrite bs_search_unfold by done. apply trace_has_no_playlist_call.
Qed.

(** A ranking for at least one track is empty for the empty list only. *)
Lemma rank_nil_inv {A} (key : A → Z) (tracks : list A) (max_tracks : Z) :
  (0 < max_tracks)%Z → rank key tracks max_tracks = [] → tracks = [].
Proof.
  intros Hm. rewrite rank_nonneg by lia.
  pose proof (sort_desc_perm key tracks) as Hperm.
  destruct (sort_desc key tracks) as [|t sorted].
  - intros _. by apply Permutation_nil_l in Hperm.
  - destruct (Z.to_nat max_tracks) as [|n] eqn:Hn; [lia|done].
Qed.

Lemma merge_length {Track} (listed : Track → list Track → bool)
    (new tracks : list Track) :
  (length tracks ≤ length (merge listed tracks new))%nat.
Proof.
  revert tracks. induction new as [|t new IH]; intros tracks; simpl; [done|].
  etrans; [|apply IH]. destruct (listed t tracks); [done|].
  rewrite length_app. lia.
Qed.

Lemma merge_nil_inv {Track} (listed : Track → list Track → bool)
    (new : list Track) :
  (∀ t, listed t [] = false) → merge listed [] new = [] → new = [].
Proof.
  intros Hlisted. destruct new as [|t new]; [done|]. intros Hnil.
  pose proof (merge_length listed new
                (if listed t [] then [] else [] ++ [t])) as Hlen.
  change (merge listed [] (t :: new))
    with (merge listed (if listed t [] then [] else [] ++ [t]) new) in Hnil.
  rewrite Hnil, Hlisted in Hlen. simpl in Hlen. lia.
Qed.

Lemma concat_map_nil {A B} (f : A → list B) (l : list A) :
  concat (map f l) = [] → Forall (λ x, f x = []) l.
Proof.
  induction l as [|x l IH]; simpl; [by constructor|].
  intros [? ?]%app_eq_nil. constructor; auto.
Qed.

(** A search for 15 tracks that returns none got no track from any query. *)
Lemma bt_no_tracks (sp : Spotify) (profile : Profile) :
  (BookTrack.search_spotify_tracks (Some sp) (Some profile) 15).1 = [] →
  Forall (λ r, contribution BookTrack.track_of_item r = [])
         (responses sp 0 (BookTrack.search_queries profile 15)).
Proof.
  destruct (decide (profile = ∅)) as [->|Hne]; [by constructor|].
  rewrite bt_search_unfold by done. simpl.
  intros Hnil%rank_nil_inv; [|lia].
  by apply merge_nil_inv, concat_map_nil in Hnil.
Qed.

Lemma bs_no_tracks (sp : Spotify) (profile : Profile) :
  (BookSoundtrack.search_spotify_tracks (Some sp) (Some profile) 15).1 = [] →
  Forall (λ r, contribution BookSoundtrack.track_of_item r = [])
         (responses sp 0 (BookSoundtrack.search_queries profile 15)).
Proof.
  destruct (decide (profile = ∅)) as [->|Hne]; [by constructor|].
  rewrite bs_search_unfold by done. simpl.
  intros Hnil%rank_nil_inv; [|lia].
  apply merge_nil_inv, concat_map_nil in Hnil; [done|].
  intros t. unfold listed_whole. apply bool_decide_eq_false, not_elem_of_nil.
Qed.

(** X22. When the run of [book_soundtrack.py] ends with tracks, they are
    what the search for 15 tracks returned for the parsed profile: at
    least one and at most 15, in descending order of popularity, no track
    twice. When the choice is not to create a playlist, the run has sent
    the searches only: no playlist is created and no items are added.
    When the choice is to create one, the calls of one run of
    [create_spotify_playlist] on these tracks follow the searches, and its
    result is the outcome. *)
Theorem book_soundtrack_run_with_tracks (book_title book_author : str)
    (quote : str → str) (api_key : str)
    (get : nat → str → Result HttpResponse)
    (analyze : BookSoundtrack.BookInfo → Result (option str))
    (sp : option Spotify) (create : bool) (tracks : list BookSoundtrack.Track)
    (playlist : option (option str)) :
  (BookSoundtrack.main book_title book_author quote api_key get analyze sp
     create).1 = Ok (inr (tracks, playlist)) →
  tracks ≠ []
  ∧ (length tracks ≤ 15)%nat
  ∧ descending BookSoundtrack.popularity tracks
  ∧ NoDup tracks
  ∧ (is_Some playlist ↔ create = true)
  ∧ ∃ book_info analysis_text profile,
      (BookSoundtrack.get_book_info quote api_key get book_title book_author).1
        = Some book_info
      ∧ analyze book_info = Ok (Some analysis_text)
      ∧ BookSoundtrack.parse_gemini_analysis analysis_text = Some profile
      ∧ profile ≠ ∅
      ∧ is_Some sp
      ∧ tracks = (BookSoundtrack.search_spotify_tracks sp (Some profile) 15).1
      ∧ (create = false →
         playlist = None
         ∧ (BookSoundtrack.main book_title book_author quote api_key get analyze
              sp create).2
           = (BookSoundtrack.search_spotify_tracks sp (Some profile) 15).2
         ∧ created (BookSoundtrack.main book_title book_author quote api_key get
                      analyze sp create).2 = []
         ∧ sent_batches (BookSoundtrack.main book_title book_author quote api_key
                           get analyze sp create).2 = [])
      ∧ (create = true →
         playlist
           = Some (BookSoundtrack.create_spotify_playlist sp book_info tracks
                     profile).1
         ∧ (BookSoundtrack.main book_title book_author quote api_key get analyze
              sp create).2
           = (BookSoundtrack.search_spotify_tracks sp (Some profile) 15).2
             ++ (BookSoundtrack.create_spotify_playlist sp book_info tracks
                   profile).2).
Proof.
  unfold BookSoundtrack.main.
  destruct (negb (truthy book_title) || negb (truthy book_author)); [done|].
  destruct (BookSoundtrack.get_book_info quote api_key get book_title book_author).1
    as [book_info|]; [|done].
  destruct (analyze book_info) as [[[|c text]|]|e] eqn:Htext; try done.
  destruct (BookSoundtrack.parse_gemini_analysis (c :: text)) as [profile|]
    eqn:Hparse; [|done].
  simpl falsy. case_bool_decide as Hempty; [done|].
  destruct sp as [sp|]; [|done].
  destruct (bs_search_is_ranked (Some sp) (Some profile) 15) as (rs & Hrank & _).
  destruct (bs_search_has_no_playlist_call (Some sp) (Some profile) 15)
    as [Hcreated Hsent].
  destruct (BookSoundtrack.search_spotify_tracks (Some sp) (Some profile) 15)
    as [ts log] eqn:Hsearch. simpl in Hrank, Hcreated, Hsent.
  destruct ts as [|t ts]; [done|].
  assert (∀ p, Ok (@inr Stop _ (t :: ts, p)) = Ok (inr (tracks, playlist)) →
            tracks = t :: ts ∧ playlist = p) as Hinv
    by (by intros p [= <- <-]).
  intros Hrun.
  assert (tracks = t :: ts) as ->.
  { destruct create.
    - destruct (BookSoundtrack.create_spotify_playlist _ _ _ _) as [url calls].
      by destruct (Hinv _ Hrun).
    - by destruct (Hinv _ Hrun). }
  split; [done|]. split; [|split; [|split; [|split]]].
  - pose proof (rank_length BookSoundtrack.popularity
      (merge listed_whole []
         (concat (map (contribution BookSoundtrack.track_of_item) rs))) 15
      ltac:(lia)) as Hlen.
    rewrite <- Hrank in Hlen. lia.
  - rewrite Hrank. apply rank_descending.
  - rewrite Hrank. apply rank_NoDup, merge_whole_NoDup, NoDup_nil_2.
  - destruct create.
    + destruct (BookSoundtrack.create_spotify_playlist _ _ _ _) as [url calls].
      destruct (Hinv _ Hrun) as [_ ->]. split; [done|by eexists].
    + destruct (Hinv _ Hrun) as [_ ->]. split; [by intros []|done].
  - exists book_info, (c :: text), profile. rewrite Hsearch.
    do 5 (split; [done || by eexists|]). split; [done|].
    destruct create.
    + split; [done|]. intros _.
      destruct (BookSoundtrack.create_spotify_playlist _ _ _ _) as [url calls].
      by destruct (Hinv _ Hrun) as [_ ->].
    + split; [|done]. intros _. by destruct (Hinv _ Hrun) as [_ ->].
Qed.

Lemma book_soundtrack_run_with_tracks_witness :
  [plain (lit "T1") 50] ≠ [] ∧ (length [plain (lit "T1") 50] ≤ 15)%nat.
Proof.
  destruct (book_soundtrack_run_with_tracks (lit "Emma") (lit "Austen")
    (λ s, s) (lit "k1") second_try (λ _, Ok (Some (lit "Keywords: sea")))
    (Some changing_catalog) false [plain (lit "T1") 50] None) as (H1 & H2 & _).
  - vm_compute. reflexivity.
  - split; [exact H1|exact H2].
Defined.

(** X23. A run of [main] sends requests through the client object only
    once every earlier stage has passed, in both files. When it stops for
    missing input, a book that is not found, a failed text generation, a
    failed parsing or a missing client, and when the text generation of
    [book_soundtrack.py] raises, no search, playlist or add-items request
    has been sent through the client. When it stops for lack of tracks, it
    has sent exactly the queries of the parsed profile for 15 tracks, and
    every one of them failed or contributed no track. The authorisation
    exchange of [setup_spotify_client] comes before there is a client and
    is not part of this. *)
Theorem stopped_runs_do_not_search (submit_button create : bool)
    (book_title book_author api_key : str) (keys : option BookTrack.Keys)
    (quote : str → str) (get1 : str → Result HttpResponse)
    (get : nat → str → Result HttpResponse)
    (analyze1 : BookTrack.BookInfo → option str)
    (analyze : BookSoundtrack.BookInfo → Result (option str))
    (sp : option Spotify) :
  let run1 :=
    BookTrack.main submit_button book_title book_author keys get1 analyze1 sp in
  let run2 :=
    BookSoundtrack.main book_title book_author quote api_key get analyze sp
      create in
  (∀ stop, stop ≠ NoTracks → run1.1 = Some (inl stop) → run1.2 = [])
  ∧ (run1.1 = Some (inl NoTracks) →
     ∃ client book_info analysis_text profile,
       sp = Some client
       ∧ BookTrack.get_book_info keys get1 book_title book_author
         = Some book_info
       ∧ analyze1 book_info = Some analysis_text
       ∧ BookTrack.parse_gemini_analysis analysis_text = Some profile
       ∧ searches run1.2 = BookTrack.search_queries profile 15
       ∧ Forall (λ r, contribution BookTrack.track_of_item r = [])
                (responses client 0 (BookTrack.search_queries profile 15)))
  ∧ (∀ stop, stop ≠ NoTracks → run2.1 = Ok (inl stop) → run2.2 = [])
  ∧ (raises run2.1 = true → run2.2 = [])
  ∧ (run2.1 = Ok (inl NoTracks) →
     ∃ client book_info analysis_text profile,
       sp = Some client
       ∧ (BookSoundtrack.get_book_info quote api_key get book_title
            book_author).1 = Some book_info
       ∧ analyze book_info = Ok (Some analysis_text)
       ∧ BookSoundtrack.parse_gemini_analysis analysis_text = Some profile
       ∧ searches run2.2 = BookSoundtrack.search_queries profile 15
       ∧ created run2.2 = [] ∧ sent_batches run2.2 = []
       ∧ Forall (λ r, contribution BookSoundtrack.track_of_item r = [])
                (responses client 0 (BookSoundtrack.search_queries profile 15))).
Proof.
  cbv zeta. split; [|split]; [| |split; [|split]].
  - intros stop Hstop. unfold BookTrack.main.
    destruct (submit_button && truthy book_title && truthy book_author); [|done].
    destruct (BookTrack.get_book_info keys get1 book_title book_author)
      as [book_info|]; [|done].
    destruct (analyze1 book_info) as [[|c text]|]; try done.
    destruct (falsy (BookTrack.parse_gemini_analysis (c :: text))); [done|].
    destruct sp as [sp|]; [|done].
    destruct (BookTrack.search_spotify_tracks _ _ _) as [[|t ts] log]; simpl.
    + intros [= <-]. done.
    + done.
  - unfold BookTrack.main.
    destruct (submit_button && truthy book_title && truthy book_author); [|done].
    destruct (BookTrack.get_book_info keys get1 book_title book_author)
      as [book_info|]; [|done].
    destruct (analyze1 book_info) as [[|c text]|] eqn:Htext; try done.
    destruct (BookTrack.parse_gemini_analysis (c :: text)) as [profile|]
      eqn:Hparse; [|done].
    simpl falsy. case_bool_decide as Hempty; [done|].
    destruct sp as [sp|]; [|done].
    pose proof (bt_searches sp profile 15) as Hsearches.
    pose proof (bt_no_tracks sp profile) as Hnone.
    destruct (BookTrack.search_spotify_tracks (Some sp) (Some profile) 15)
      as [[|t ts] log]; [|done].
    intros _. exists sp, book_info, (c :: text), profile.
    repeat split; try done. by apply Hnone.
  - intros stop Hstop. unfold BookSoundtrack.main.
    destruct (negb (truthy book_title) || negb (truthy book_author)); [done|].
    destruct (BookSoundtrack.get_book_info quote api_key get book_title
                book_author).1 as [book_info|]; [|done].
    destruct (analyze book_info) as [[[|c text]|]|e]; try done.
    destruct (BookSoundtrack.parse_gemini_analysis (c :: text)) as [profile|];
      [|done].
    destruct (falsy (Some profile)); [done|].
    destruct sp as [sp|]; [|done].
    destruct (BookSoundtrack.search_spotify_tracks _ _ _) as [[|t ts] log].
    + simpl. by intros [= <-].
    + destruct create; [|done].
      by destruct (BookSoundtrack.create_spotify_playlist _ _ _ _).
  - unfold BookSoundtrack.main.
    destruct (negb (truthy book_title) || negb (truthy book_author)); [done|].
    destruct (BookSoundtrack.get_book_info quote api_key get book_title
                book_author).1 as [book_info|]; [|done].
    destruct (analyze book_info) as [[[|c text]|]|e]; try done.
    destruct (BookSoundtrack.parse_gemini_analysis (c :: text)) as [profile|];
      [|done].
    destruct (falsy (Some profile)); [done|].
    destruct sp as [sp|]; [|done].
    destruct (BookSoundtrack.search_spotify_tracks _ _ _) as [[|t ts] log];
      [done|]. destruct create; [|done].
    by destruct (BookSoundtrack.create_spotify_playlist _ _ _ _).
  - unfold BookSoundtrack.main.
    destruct (negb (truthy book_title) || negb (truthy book_author)); [done|].
    destruct (BookSoundtrack.get_book_info quote api_key get book_title
                book_author).1 as [book_info|]; [|done].
    destruct (analyze book_info) as [[[|c text]|]|e] eqn:Htext; try done.
    destruct (BookSoundtrack.parse_gemini_analysis (c :: text)) as [profile|]
      eqn:Hparse; [|done].
    simpl falsy. case_bool_decide as Hempty; [done|].
    destruct sp as [sp|]; [|done].
    pose proof (bs_searches sp profile 15) as Hsearches.
    pose proof (bs_no_tracks sp profile) as Hnone.
    destruct (bs_search_has_no_playlist_call (Some sp) (Some profile) 15)
      as [Hcreated Hsent].
    destruct (BookSoundtrack.search_spotify_tracks (Some sp) (Some profile) 15)
      as [[|t ts] log].
    + intros _. exists sp, book_info, (c :: text), profile.
      repeat split; try done. by apply Hnone.
    + destruct create; [|done].
      by destruct (BookSoundtrack.create_spotify_playlist _ _ _ _).
Qed.

Lemma stopped_runs_do_not_search_witness :
  (BookTrack.main true (lit "Emma") (lit "Austen") (Some some_keys)
     (λ _, Ok emma_response) (λ _, Some (lit "no labels here"))
     (Some changing_catalog)).2 = [].
Proof.
  refine (proj1 (stopped_runs_do_not_search true false
    (lit "Emma") (lit "Austen") (lit "k1") (Some some_keys) (λ s, s)
    (λ _, Ok emma_response) second_try (λ _, Some (lit "no labels here"))
    (λ _, Ok None) (Some changing_catalog)) ParseFailed _ _).
  - discriminate.
  - vm_compute. reflexivity.
Defined.

(** ** The first track of an id *)

Lemma BookTrack_first_met_is_kept_witness :
  ∃ before after,
    concat (map (contribution BookTrack.track_of_item)
              (responses changing_catalog 0 (BookTrack.search_queries rock_sea 15)))
    = before ++ full_T1 :: after
    ∧ (BookTrack.id full_T1 ∉ map BookTrack.id before).
Proof.
  apply (BookTrack_first_met_is_kept changing_catalog rock_sea 15 full_T1).
  vm_compute. left.
Defined.
